(** * Keyboard-shortcut registry: key-combination parsing, matching,
      the category registry, its debounced snapshot and the dispatch handler.

    Shallow embedding of [src/ShortCuts/registry/shortcutsRegistry.ts].

    Conventions of the embedding.
    - A JavaScript string is a [string] whose characters are the code
      points U+0000..U+00FF; [toLowerCase], [trim] and [split] are written
      out for that range.
    - An optional property ([ctrlKey?: boolean], [order?: number]) is an
      [option]; [None] is [undefined].
    - The [order] of an entry is a number with the finite values taken as
      integers, the infinities and NaN; on finite numbers the sign of the
      comparator [orderA - orderB] is the sign of the exact difference.
    - A [Map] is an association list in insertion order; a plain object used
      as a record of categories is the list of its own properties in creation
      order, enumerated as [Object.values] does (array-index keys first).
      Property lookup [o[k]] walks the prototype chain, and an
      assignment to ['__proto__'] changes the prototype.
    - [window.setTimeout] and [clearTimeout] act on the list of pending
      timeouts of the host; the only callback ever armed is
      [updateRegistry], and [timeoutFires] is the host running it.
    - Module-level mutable state is threaded explicitly; an action is an
      opaque callback that may change any part of that state and may throw. *)

From Stdlib Require Import String Ascii List ZArith NArith Bool Lia.
From Stdlib Require Import Sorted Permutation.
Import ListNotations.

Local Open Scope string_scope.
Local Open Scope bool_scope.
Local Open Scope list_scope.

(* ================================================================== *)
(** ** JavaScript string primitives used by the parser *)

Module JsString.

(** [String.prototype.toLowerCase], one code point at a time: A-Z and the
    Latin-1 capitals U+00C0..U+00DE (the sign U+00D7 apart) move up by 32. *)
Definition toLowerCaseChar (c : ascii) : ascii :=
  let n := N_of_ascii c in
  if ((65 <=? n) && (n <=? 90)
      || (192 <=? n) && (n <=? 222) && negb (n =? 215))%N
  then ascii_of_N (n + 32)
  else c.

Fixpoint toLowerCase (s : string) : string :=
  match s with
  | EmptyString => EmptyString
  | String c r => String (toLowerCaseChar c) (toLowerCase r)
  end.

(** White space and line terminators stripped by [trim]:
    TAB, LF, VT, FF, CR, SPACE and NO-BREAK SPACE. *)
Definition isWhiteSpace (c : ascii) : bool :=
  let n := N_of_ascii c in
  ((9 <=? n) && (n <=? 13) || (n =? 32) || (n =? 160))%N.

Fixpoint trimStart (s : string) : string :=
  match s with
  | EmptyString => EmptyString
  | String c r => if isWhiteSpace c then trimStart r else s
  end.

Fixpoint trimEnd (s : string) : string :=
  match s with
  | EmptyString => EmptyString
  | String c r =>
      match trimEnd r with
      | EmptyString => if isWhiteSpace c then EmptyString else String c EmptyString
      | r' => String c r'
      end
  end.

(** [String.prototype.trim]. *)
Definition trim (s : string) : string := trimEnd (trimStart s).

(** [s.split(sep)] for a one-character separator: never the empty list,
    [''.split('+')] is [['']]. *)
Fixpoint split (sep : ascii) (s : string) : list string :=
  match s with
  | EmptyString => [EmptyString]
  | String c r =>
      if Ascii.eqb c sep then EmptyString :: split sep r
      else match split sep r with
           | h :: t => String c h :: t
           | [] => [String c EmptyString]
           end
  end.

(** Does the character occur in the string? *)
Fixpoint contains (c : ascii) (s : string) : bool :=
  match s with
  | EmptyString => false
  | String d r => Ascii.eqb d c || contains c r
  end.

End JsString.
Import JsString.

(** [!!v] on an optional boolean. *)
Definition truthy (v : option bool) : bool :=
  match v with
  | Some b => b
  | None => false
  end.

(* ================================================================== *)
(** ** Key combinations and keyboard events *)

Module KeyCombination.
(** [interface KeyCombination]. *)
Record t : Type := mk {
  key : string;
  ctrlKey : option bool;
  shiftKey : option bool;
  altKey : option bool;
  metaKey : option bool
}.
End KeyCombination.

(** The element a key press originates from, as far as the handler looks
    at it: its class and its [contentEditable] property ([None] when the
    target is not an HTML element and has no such property). *)
Inductive ElementKind : Type :=
| HTMLInputElement
| HTMLTextAreaElement
| HTMLSelectElement
| OtherTarget.

Record EventTarget : Type := {
  kind : ElementKind;
  contentEditable : option string
}.

Module KeyboardEvent.
(** The part of a DOM [KeyboardEvent] the registry reads and writes.
    [defaultPrevented] and [propagationStopped] record the calls of
    [preventDefault()] and [stopPropagation()]. *)
Record t : Type := mk {
  key : string;
  code : string;
  ctrlKey : bool;
  shiftKey : bool;
  altKey : bool;
  metaKey : bool;
  target : EventTarget;
  defaultPrevented : bool;
  propagationStopped : bool
}.
End KeyboardEvent.

(** [new KeyboardEvent('keydown', {key, ctrlKey, shiftKey, altKey, metaKey})]
    dispatched on a non-editable element: [code] is [''] and nothing has
    been suppressed yet. *)
Definition plainTarget : EventTarget :=
  {| kind := OtherTarget; contentEditable := Some "inherit" |}.

Definition keydown (key : string) (ctrl shift alt meta : bool) : KeyboardEvent.t :=
  KeyboardEvent.mk key "" ctrl shift alt meta plainTarget false false.

(** The body of the [switch] in [parseKeyCombo]: one loop iteration. *)
Definition parseStep (result : KeyCombination.t) (part : string) : KeyCombination.t :=
  let p := trim part in
  if (p =? "ctrl") || (p =? "control") then
    KeyCombination.mk (KeyCombination.key result) (Some true)
      (KeyCombination.shiftKey result) (KeyCombination.altKey result)
      (KeyCombination.metaKey result)
  else if p =? "shift" then
    KeyCombination.mk (KeyCombination.key result) (KeyCombination.ctrlKey result)
      (Some true) (KeyCombination.altKey result) (KeyCombination.metaKey result)
  else if p =? "alt" then
    KeyCombination.mk (KeyCombination.key result) (KeyCombination.ctrlKey result)
      (KeyCombination.shiftKey result) (Some true) (KeyCombination.metaKey result)
  else if (p =? "cmd") || (p =? "meta") then
    KeyCombination.mk (KeyCombination.key result) (KeyCombination.ctrlKey result)
      (KeyCombination.shiftKey result) (KeyCombination.altKey result) (Some true)
  else
    KeyCombination.mk p (KeyCombination.ctrlKey result)
      (KeyCombination.shiftKey result) (KeyCombination.altKey result)
      (KeyCombination.metaKey result).

(** [const result: KeyCombination = { key: '' }]. *)
Definition emptyCombo : KeyCombination.t :=
  KeyCombination.mk "" None None None None.

(** [parseKeyCombo]: lower-case the whole string, split on ['+'], then run
    the loop over the parts. *)
Definition parseKeyCombo (keyCombo : string) : KeyCombination.t :=
  let parts := split "+" (toLowerCase keyCombo) in
  fold_left parseStep parts emptyCombo.

(** The normalisation of [event.key] at the head of [matchesKeyCombo]. *)
Definition normalizedEventKey (event : KeyboardEvent.t) : string :=
  let eventKey := toLowerCase (KeyboardEvent.key event) in
  let eventKey := if eventKey =? " " then "space" else eventKey in
  let eventKey := if eventKey =? "escape" then "esc" else eventKey in
  eventKey.

(** The four comparisons of [matchesKeyCombo], on a parsed combination. *)
Definition matchesCombination (event : KeyboardEvent.t) (combo : KeyCombination.t) : bool :=
  let eventKey := normalizedEventKey event in
  let keyMatches :=
    (eventKey =? KeyCombination.key combo)
    || (toLowerCase (KeyboardEvent.code event) =? ("key" ++ KeyCombination.key combo)%string) in
  let ctrlMatches :=
    Bool.eqb (truthy (KeyCombination.ctrlKey combo))
             (KeyboardEvent.ctrlKey event || KeyboardEvent.metaKey event) in
  let shiftMatches :=
    Bool.eqb (truthy (KeyCombination.shiftKey combo)) (KeyboardEvent.shiftKey event) in
  let altMatches :=
    Bool.eqb (truthy (KeyCombination.altKey combo)) (KeyboardEvent.altKey event) in
  keyMatches && ctrlMatches && shiftMatches && altMatches.

(** [matchesKeyCombo]. *)
Definition matchesKeyCombo (event : KeyboardEvent.t) (keyCombo : string) : bool :=
  matchesCombination event (parseKeyCombo keyCombo).


(* ================================================================== *)
(** ** Arrays, Maps and plain objects *)

Module JsNumber.
(** A number as far as ordering goes: the finite values (as integers), the
    two infinities and NaN. *)
Inductive t : Type :=
| NegInfinity
| Finite (z : Z)
| PosInfinity
| NaN.

(** [a - b]. Between finite values the model keeps the exact difference,
    whose sign is the sign of the rounded one. *)
Definition sub (a b : t) : t :=
  match a, b with
  | NaN, _ => NaN
  | _, NaN => NaN
  | PosInfinity, PosInfinity => NaN
  | NegInfinity, NegInfinity => NaN
  | PosInfinity, _ => PosInfinity
  | NegInfinity, _ => NegInfinity
  | Finite _, PosInfinity => NegInfinity
  | Finite _, NegInfinity => PosInfinity
  | Finite x, Finite y => Finite (x - y)
  end.

(** How [sort] reads what the comparator returned: NaN counts as [+0];
    only the sign of the rest matters. *)
Definition SortCompare (v : t) : Z :=
  match v with
  | NaN => 0
  | NegInfinity => -1
  | PosInfinity => 1
  | Finite z => z
  end.

(** [a <= b]: false as soon as one side is NaN. *)
Definition leb (a b : t) : bool :=
  match a, b with
  | NaN, _ => false
  | _, NaN => false
  | NegInfinity, _ => true
  | _, PosInfinity => true
  | Finite x, Finite y => (x <=? y)%Z
  | _, _ => false
  end.

Definition isNaN (a : t) : bool :=
  match a with
  | NaN => true
  | _ => false
  end.

(** The same value (as [Object.is] tells). *)
Definition same (a b : t) : bool :=
  match a, b with
  | NaN, NaN => true
  | NegInfinity, NegInfinity => true
  | PosInfinity, PosInfinity => true
  | Finite x, Finite y => (x =? y)%Z
  | _, _ => false
  end.
End JsNumber.

Module JsArray.
Section Sort.
Context {A : Type}.
Variable compareFn : A -> A -> JsNumber.t.

(** Put [x], which stood before every element of [l], into the sorted
    [l]: before the first element it does not compare greater than. *)
Fixpoint insertSorted (x : A) (l : list A) : list A :=
  match l with
  | [] => [x]
  | y :: r =>
      if (JsNumber.SortCompare (compareFn x y) <=? 0)%Z
      then x :: y :: r
      else y :: insertSorted x r
  end.

(** [Array.prototype.sort(compareFn)]: the sort is stable, so with a
    consistent comparator its result is the one of any stable sort. With
    an inconsistent comparator (a NaN among the keys) the order is left to
    the engine; the model then gives the order of this insertion sort. *)
Definition sort (l : list A) : list A := fold_right insertSorted [] l.
End Sort.
End JsArray.

Module JsMap.
(** A [Map<string, V>]: its entries in insertion order. *)
Definition t (V : Type) : Type := list (string * V).

Section Ops.
Context {V : Type}.

Fixpoint get (m : t V) (k : string) : option V :=
  match m with
  | [] => None
  | (k', v) :: r => if k' =? k then Some v else get r k
  end.

Definition has (m : t V) (k : string) : bool :=
  match get m k with
  | Some _ => true
  | None => false
  end.

(** [m.set(k, v)]: an existing key keeps its place, a new one goes last. *)
Fixpoint set (m : t V) (k : string) (v : V) : t V :=
  match m with
  | [] => [(k, v)]
  | (k', v') :: r => if k' =? k then (k, v) :: r else (k', v') :: set r k v
  end.

(** [m.delete(k)]: the map without [k], and whether [k] was there. *)
Definition delete (m : t V) (k : string) : bool * t V :=
  (has m k, filter (fun kv => negb (fst kv =? k)) m).

Definition size (m : t V) : nat := List.length m.

Definition values (m : t V) : list V := map snd m.
End Ops.
End JsMap.

Module JsObject.
(** A plain object used as [Record<string, E[]>]: its own enumerable
    properties in creation order, and its prototype, which is
    [Object.prototype] ([None]) unless an assignment to ['__proto__'] has
    made an array the prototype. *)
Record t (E : Type) : Type := mk {
  own : list (string * list E);
  proto : option (list E)
}.

Arguments mk {E}.
Arguments own {E}.
Arguments proto {E}.

(** Where an inherited member comes from. *)
Inductive holder : Type :=
| ObjectPrototype
| ArrayPrototype.

(** What [o[k]] can be. *)
Inductive value (E : Type) : Type :=
| Undefined
| ArrayOf (l : list E)
| Element (e : E)
| Length (n : nat)
| Builtin (h : holder) (name : string)
| ThePrototype.

Arguments Undefined {E}.
Arguments ArrayOf {E}.
Arguments Element {E}.
Arguments Length {E}.
Arguments Builtin {E}.
Arguments ThePrototype {E}.

(** The data properties of [Object.prototype] (['__proto__'], an accessor,
    is treated apart). *)
Definition ObjectPrototypeNames : list string :=
  ["constructor"; "hasOwnProperty"; "isPrototypeOf"; "propertyIsEnumerable";
   "toLocaleString"; "toString"; "valueOf";
   "__defineGetter__"; "__defineSetter__"; "__lookupGetter__"; "__lookupSetter__"].

(** The properties of [Array.prototype] (ECMAScript 2023). *)
Definition ArrayPrototypeNames : list string :=
  ["length"; "constructor"; "at"; "concat"; "copyWithin"; "fill"; "find"; "findIndex";
   "findLast"; "findLastIndex"; "lastIndexOf"; "pop"; "push"; "reverse"; "shift";
   "unshift"; "slice"; "sort"; "splice"; "includes"; "indexOf"; "join"; "keys";
   "entries"; "values"; "forEach"; "filter"; "flat"; "flatMap"; "map"; "every"; "some";
   "reduce"; "reduceRight"; "toReversed"; "toSorted"; "toSpliced"; "with";
   "toLocaleString"; "toString"].

Definition isDigit (c : ascii) : bool :=
  let n := N_of_ascii c in ((48 <=? n) && (n <=? 57))%N.

Fixpoint digitsValue (s : string) (acc : N) : option N :=
  match s with
  | EmptyString => Some acc
  | String c r =>
      if isDigit c then digitsValue r (10 * acc + (N_of_ascii c - 48))%N else None
  end.

(** The array index a property key denotes, if any: a canonical decimal
    numeral (no sign, no leading zero) below 2^32 - 1. *)
Definition arrayIndex (k : string) : option N :=
  match k with
  | EmptyString => None
  | String c r =>
      if (Ascii.eqb c "0" && negb (r =? ""))%bool then None
      else match digitsValue k 0 with
           | Some n => if (n <? 4294967295)%N then Some n else None
           | None => None
           end
  end.

Section Ops.
Context {E : Type}.

(** [!!v]. *)
Definition truthy (v : value E) : bool :=
  match v with
  | Undefined => false
  | Length n => negb (Nat.eqb n 0)
  | _ => true
  end.

(** A key looked up on [Object.prototype]. *)
Definition fromObjectPrototype (k : string) : value E :=
  if existsb (String.eqb k) ObjectPrototypeNames then Builtin ObjectPrototype k
  else Undefined.

(** A key looked up on an array that is the prototype: its length, its
    elements, then [Array.prototype], then [Object.prototype]. *)
Definition fromArray (a : list E) (k : string) : value E :=
  if k =? "length" then Length (List.length a)
  else
    match match arrayIndex k with
          | Some i => nth_error a (N.to_nat i)
          | None => None
          end with
    | Some e => Element e
    | None =>
        if existsb (String.eqb k) ArrayPrototypeNames then Builtin ArrayPrototype k
        else fromObjectPrototype k
    end.

(** [o[k]]: an own property, else what the prototype chain gives;
    ['__proto__'] is the accessor of [Object.prototype], which returns the
    prototype of [o]. *)
Definition get (o : t E) (k : string) : value E :=
  match JsMap.get (own o) k with
  | Some l => ArrayOf l
  | None =>
      if k =? "__proto__" then
        match proto o with
        | Some a => ArrayOf a
        | None => ThePrototype
        end
      else
        match proto o with
        | Some a => fromArray a k
        | None => fromObjectPrototype k
        end
  end.

(** [o[k] = v] for an array [v]: an own property is written or created,
    except that ['__proto__'], when it is no own property, goes to the
    setter of [Object.prototype], which makes [v] the prototype. *)
Definition set (o : t E) (k : string) (v : list E) : t E :=
  if (k =? "__proto__") && negb (JsMap.has (own o) k)
  then mk (own o) (Some v)
  else mk (JsMap.set (own o) k v) (proto o).

Definition indexOf (kv : string * list E) : Z :=
  match arrayIndex (fst kv) with
  | Some n => Z.of_N n
  | None => 0
  end.

Definition isIndexed (kv : string * list E) : bool :=
  match arrayIndex (fst kv) with
  | Some _ => true
  | None => false
  end.

(** [Object.entries(o)]: the own properties, array-index keys in ascending
    numeric order, then the other keys in creation order. *)
Definition entries (o : t E) : list (string * list E) :=
  JsArray.sort (fun a b => JsNumber.Finite (indexOf a - indexOf b)) (filter isIndexed (own o))
  ++ filter (fun kv => negb (isIndexed kv)) (own o).

(** [Object.values(o)]. *)
Definition values (o : t E) : list (list E) := map snd (entries o).
End Ops.
End JsObject.

(* ================================================================== *)
(** ** Entries, state and results *)

(** [interface ShortcutEntry], over the type of the callbacks. *)
Record ShortcutEntry (Action : Type) : Type := mkEntry {
  name : string;
  keyCombo : string;
  description : string;
  action : Action;
  category : string;
  enabled : option bool;
  order : option JsNumber.t
}.

Arguments mkEntry {Action}.
Arguments name {Action}.
Arguments keyCombo {Action}.
Arguments description {Action}.
Arguments action {Action}.
Arguments category {Action}.
Arguments enabled {Action}.
Arguments order {Action}.

(** [Object.values(DEFAULT_SHORTCUT_CATEGORIES)]. *)
Definition DEFAULT_SHORTCUT_CATEGORIES : list string :=
  ["navigation"; "viewSettings"; "tools"; "editing"; "custom"].

(** [Number.MAX_SAFE_INTEGER], 2^53 - 1. *)
Definition MAX_SAFE_INTEGER : Z := 9007199254740991.

(** How a call ends: with a value, or by throwing. *)
Inductive result (A : Type) : Type :=
| Ok (a : A)
| Throw (e : string).

Arguments Ok {A}.
Arguments Throw {A}.

Definition returns {A : Type} (r : result A) : bool :=
  match r with
  | Ok _ => true
  | Throw _ => false
  end.

(** The module-level variables of the registry, the store, the host's
    timeouts and console, and the application state the callbacks act on. *)
Record State (Action App : Type) : Type := mkState {
  shortcutsRegistry : JsMap.t (JsMap.t (ShortcutEntry Action));
  storeShortcuts : JsObject.t (ShortcutEntry Action);
  storeVersion : Z;
  updateTimer : option nat;
  pendingTimeouts : list nat;
  nextTimeout : nat;
  console : list (string * string);
  app : App
}.

Arguments mkState {Action App}.
Arguments shortcutsRegistry {Action App}.
Arguments storeShortcuts {Action App}.
Arguments storeVersion {Action App}.
Arguments updateTimer {Action App}.
Arguments pendingTimeouts {Action App}.
Arguments nextTimeout {Action App}.
Arguments console {Action App}.
Arguments app {Action App}.

(** What a computation leaves: its result, the state after it, and the
    callbacks it invoked itself, in order. *)
Record Outcome (Action App A : Type) : Type := mkOutcome {
  res : result A;
  final : State Action App;
  calls : list Action
}.

Arguments mkOutcome {Action App A}.
Arguments res {Action App A}.
Arguments final {Action App A}.
Arguments calls {Action App A}.

(** The store as [create] builds it and the module variables as
    initialised, over a given application state. *)
Definition initialState {Action App : Type} (a : App) : State Action App :=
  mkState [] (JsObject.mk (map (fun c => (c, [])) DEFAULT_SHORTCUT_CATEGORIES) None)
    0 None [] 1 [] a.

Definition withRegistry {Action App : Type}
    (r : JsMap.t (JsMap.t (ShortcutEntry Action))) (st : State Action App) : State Action App :=
  mkState r (storeShortcuts st) (storeVersion st) (updateTimer st)
    (pendingTimeouts st) (nextTimeout st) (console st) (app st).

Definition withStore {Action App : Type}
    (s : JsObject.t (ShortcutEntry Action)) (v : Z) (st : State Action App) : State Action App :=
  mkState (shortcutsRegistry st) s v (updateTimer st)
    (pendingTimeouts st) (nextTimeout st) (console st) (app st).

Definition withTimers {Action App : Type}
    (t : option nat) (p : list nat) (n : nat) (st : State Action App) : State Action App :=
  mkState (shortcutsRegistry st) (storeShortcuts st) (storeVersion st) t p n
    (console st) (app st).

Definition withConsole {Action App : Type}
    (c : list (string * string)) (st : State Action App) : State Action App :=
  mkState (shortcutsRegistry st) (storeShortcuts st) (storeVersion st) (updateTimer st)
    (pendingTimeouts st) (nextTimeout st) c (app st).

(** [a.order ?? Number.MAX_SAFE_INTEGER]. *)
Definition orderOrMax {Action : Type} (a : ShortcutEntry Action) : JsNumber.t :=
  match order a with
  | Some o => o
  | None => JsNumber.Finite MAX_SAFE_INTEGER
  end.

(** The comparator handed to [sort] in [updateRegistry] and [getAllShortcuts]. *)
Definition compareOrder {Action : Type} (a b : ShortcutEntry Action) : JsNumber.t :=
  let orderA := orderOrMax a in
  let orderB := orderOrMax b in
  JsNumber.sub orderA orderB.

(** The body shared by [getAllShortcuts] and by the [getAllShortcuts] of
    [useShortcutsRegistry]: push every category's entries, then sort. *)
Definition flattenAndSort {Action : Type}
    (shortcuts : JsObject.t (ShortcutEntry Action)) : list (ShortcutEntry Action) :=
  let allShortcuts :=
    fold_left (fun acc l => acc ++ l) (JsObject.values shortcuts) [] in
  JsArray.sort compareOrder allShortcuts.

(** The guard at the head of [handleKeyDown]. *)
Definition isTextEntryTarget (t : EventTarget) : bool :=
  match kind t with HTMLInputElement => true | _ => false end
  || match kind t with HTMLTextAreaElement => true | _ => false end
  || match kind t with HTMLSelectElement => true | _ => false end
  || match contentEditable t with Some v => v =? "true" | None => false end.

Definition preventDefault (e : KeyboardEvent.t) : KeyboardEvent.t :=
  KeyboardEvent.mk (KeyboardEvent.key e) (KeyboardEvent.code e)
    (KeyboardEvent.ctrlKey e) (KeyboardEvent.shiftKey e) (KeyboardEvent.altKey e)
    (KeyboardEvent.metaKey e) (KeyboardEvent.target e)
    true (KeyboardEvent.propagationStopped e).

Definition stopPropagation (e : KeyboardEvent.t) : KeyboardEvent.t :=
  KeyboardEvent.mk (KeyboardEvent.key e) (KeyboardEvent.code e)
    (KeyboardEvent.ctrlKey e) (KeyboardEvent.shiftKey e) (KeyboardEvent.altKey e)
    (KeyboardEvent.metaKey e) (KeyboardEvent.target e)
    (KeyboardEvent.defaultPrevented e) true.

(* ================================================================== *)
(** ** The registry operations *)

Section Registry.
Context {Action App : Type}.

(** What calling a callback does: it may change the state and may throw. *)
Variable run : Action -> State Action App -> result unit * State Action App.

Definition M (A : Type) : Type := State Action App -> Outcome Action App A.

Definition ret {A : Type} (a : A) : M A := fun st => mkOutcome (Ok a) st [].

Definition bind {A B : Type} (m : M A) (f : A -> M B) : M B := fun st =>
  let o := m st in
  match res o with
  | Ok a =>
      let o' := f a (final o) in
      mkOutcome (res o') (final o') (calls o ++ calls o')
  | Throw e => mkOutcome (Throw e) (final o) (calls o)
  end.

Definition throw {A : Type} (e : string) : M A := fun st => mkOutcome (Throw e) st [].

(** [try { body } catch (error) { handler }]. *)
Definition tryCatch {A : Type} (body : M A) (handler : string -> M A) : M A := fun st =>
  let o := body st in
  match res o with
  | Ok _ => o
  | Throw e =>
      let o' := handler e (final o) in
      mkOutcome (res o') (final o') (calls o ++ calls o')
  end.

Definition gets {A : Type} (f : State Action App -> A) : M A :=
  fun st => mkOutcome (Ok (f st)) st [].

Definition modify (f : State Action App -> State Action App) : M unit :=
  fun st => mkOutcome (Ok tt) (f st) [].

(** [shortcut.action()]. *)
Definition invoke (a : Action) : M unit := fun st =>
  mkOutcome (fst (run a st)) (snd (run a st)) [a].

(** [console.error(message, error)]. *)
Definition consoleError (message error : string) : M unit :=
  modify (fun st => withConsole (console st ++ [(message, error)]) st).

Local Notation "x <- c ;; k" := (bind c (fun x => k))
  (at level 61, c at next level, right associativity).
Local Notation "c ;;; k" := (bind c (fun _ => k))
  (at level 61, right associativity).

(** [initRegistry]: the category's map, created when missing. The result
    is what [shortcutsRegistry.get(category)] returns. *)
Definition initRegistry (category : string) : M (option (JsMap.t (ShortcutEntry Action))) :=
  present <- gets (fun st => JsMap.has (shortcutsRegistry st) category) ;;
  (if negb present
   then modify (fun st => withRegistry (JsMap.set (shortcutsRegistry st) category []) st)
   else ret tt) ;;;
  gets (fun st => JsMap.get (shortcutsRegistry st) category).

(** One iteration of the [forEach] over the registry in [updateRegistry]. *)
Definition updateCategory (shortcutsState : JsObject.t (ShortcutEntry Action))
    (kv : string * JsMap.t (ShortcutEntry Action)) : JsObject.t (ShortcutEntry Action) :=
  let category := fst kv in
  let entryMap := snd kv in
  let shortcutsState :=
    if negb (JsObject.truthy (JsObject.get shortcutsState category))
    then JsObject.set shortcutsState category []
    else shortcutsState in
  let entries := JsMap.values entryMap in
  let sortedEntries := JsArray.sort compareOrder entries in
  JsObject.set shortcutsState category sortedEntries.

(** [updateRegistry]: rebuild the store's record from the registry. *)
Definition updateRegistry : M unit :=
  registry <- gets shortcutsRegistry ;;
  let shortcutsState :=
    fold_left (fun o category => JsObject.set o category [])
      DEFAULT_SHORTCUT_CATEGORIES (JsObject.mk [] None) in
  let shortcutsState := fold_left updateCategory registry shortcutsState in
  modify (fun st => withStore shortcutsState (storeVersion st) st) ;;;
  modify (fun st => withStore (storeShortcuts st) (storeVersion st + 1) st).

(** [debouncedUpdateRegistry]: clear the timeout remembered in
    [updateTimer], then arm a new one for [updateRegistry]. *)
Definition debouncedUpdateRegistry : M unit :=
  modify (fun st =>
    let pending :=
      match updateTimer st with
      | Some id =>
          if negb (Nat.eqb id 0)
          then filter (fun j => negb (Nat.eqb j id)) (pendingTimeouts st)
          else pendingTimeouts st
      | None => pendingTimeouts st
      end in
    let id := nextTimeout st in
    withTimers (Some id) (pending ++ [id]) (S id) st).

(** The host runs the callback of timeout [id], if it is still pending. *)
Definition timeoutFires (id : nat) : M unit :=
  pending <- gets pendingTimeouts ;;
  if existsb (Nat.eqb id) pending
  then
    modify (fun st =>
      withTimers (updateTimer st)
        (filter (fun j => negb (Nat.eqb j id)) (pendingTimeouts st))
        (nextTimeout st) st) ;;;
    updateRegistry
  else ret tt.

(** [registerShortcut]; [None] for [enabled] or [order] is an omitted
    argument. *)
Definition registerShortcut (category name keyCombo : string) (action : Action)
    (description : string) (enabled : option bool) (order : option JsNumber.t) : M unit :=
  let enabled := match enabled with Some b => b | None => true end in
  registry <- initRegistry category ;;
  let shortcutEntry :=
    mkEntry name keyCombo description action category (Some enabled) order in
  match registry with
  | None => throw "TypeError: Cannot read properties of undefined (reading 'set')"
  | Some registry =>
      (* [registry.set] changes the map the registry holds for [category] *)
      modify (fun st =>
        withRegistry
          (JsMap.set (shortcutsRegistry st) category (JsMap.set registry name shortcutEntry))
          st) ;;;
      debouncedUpdateRegistry
  end.

(** [unregisterShortcut]. *)
Definition unregisterShortcut (category name : string) : M unit :=
  registry <- gets (fun st => JsMap.get (shortcutsRegistry st) category) ;;
  match registry with
  | None => ret tt
  | Some registry =>
      let deleted := fst (JsMap.delete registry name) in
      let registry := snd (JsMap.delete registry name) in
      modify (fun st =>
        withRegistry (JsMap.set (shortcutsRegistry st) category registry) st) ;;;
      (if Nat.eqb (JsMap.size registry) 0
       then modify (fun st =>
              withRegistry (snd (JsMap.delete (shortcutsRegistry st) category)) st)
       else ret tt) ;;;
      if deleted then debouncedUpdateRegistry else ret tt
  end.

(** [getShortcuts]: [storeState.shortcuts[category] || []]. *)
Definition getShortcuts (category : string) : M (JsObject.value (ShortcutEntry Action)) :=
  gets (fun st =>
    let found := JsObject.get (storeShortcuts st) category in
    if JsObject.truthy found then found else JsObject.ArrayOf []).

(** [getShortcutCategories]. *)
Definition getShortcutCategories : M (list string) :=
  gets (fun st =>
    fold_left
      (fun categories kv =>
         if Nat.ltb 0 (List.length (snd kv)) then categories ++ [fst kv] else categories)
      (JsObject.entries (storeShortcuts st)) []).

(** [getAllShortcuts]. *)
Definition getAllShortcuts : M (list (ShortcutEntry Action)) :=
  gets (fun st => flattenAndSort (storeShortcuts st)).

(** [clearShortcuts]. *)
Definition clearShortcuts (category : string) : M unit :=
  deleted <- gets (fun st => fst (JsMap.delete (shortcutsRegistry st) category)) ;;
  modify (fun st =>
    withRegistry (snd (JsMap.delete (shortcutsRegistry st) category)) st) ;;;
  if deleted then debouncedUpdateRegistry else ret tt.

(** [hasShortcut]. *)
Definition hasShortcut (category name : string) : M bool :=
  gets (fun st =>
    match JsMap.get (shortcutsRegistry st) category with
    | Some registry => JsMap.has registry name
    | None => false
    end).

(** [executeShortcut]. *)
Definition executeShortcut (category name : string) : M bool :=
  registry <- gets (fun st => JsMap.get (shortcutsRegistry st) category) ;;
  match registry with
  | None => ret false
  | Some registry =>
      match JsMap.get registry name with
      | None => ret false
      | Some shortcut =>
          if negb (truthy (enabled shortcut)) then ret false
          else
            tryCatch
              (invoke (action shortcut) ;;; ret true)
              (fun error =>
                 consoleError
                   ("Error executing shortcut " ++ category ++ ":" ++ name ++ ":")%string error ;;;
                 ret false)
      end
  end.

(** The [for ... of] loop of [handleKeyDown]; returning is its [break]. *)
Fixpoint scanShortcuts (event : KeyboardEvent.t) (allShortcuts : list (ShortcutEntry Action))
    : M KeyboardEvent.t :=
  match allShortcuts with
  | [] => ret event
  | shortcut :: rest =>
      if truthy (enabled shortcut) && matchesKeyCombo event (keyCombo shortcut)
      then
        let event := preventDefault event in
        let event := stopPropagation event in
        tryCatch
          (invoke (action shortcut))
          (fun error =>
             consoleError ("Error executing shortcut " ++ name shortcut ++ ":")%string error) ;;;
        ret event
      else scanShortcuts event rest
  end.

(** [handleKeyDown] of [useKeyboardShortcutHandler], over the record of
    shortcuts the hook holds ([cachedShortcuts]); it returns the event as
    the handler leaves it. *)
Definition handleKeyDown (cachedShortcuts : JsObject.t (ShortcutEntry Action))
    (event : KeyboardEvent.t) : M KeyboardEvent.t :=
  if isTextEntryTarget (KeyboardEvent.target event) then ret event
  else
    let allShortcuts := flattenAndSort cachedShortcuts in
    scanShortcuts event allShortcuts.

End Registry.

Arguments M : clear implicits.

(* ================================================================== *)
(** ** The parser and the claims' predicates, in the specification's words *)

(** The tokens of a combination string: split on ['+'], each part trimmed
    and lower-cased. *)
Definition tokensOf (keyCombo : string) : list string :=
  map (fun part => toLowerCase (trim part)) (split "+" keyCombo).

Definition isModifierToken (t : string) : bool :=
  (t =? "ctrl") || (t =? "control") || (t =? "shift") || (t =? "alt")
  || (t =? "cmd") || (t =? "meta").

(** A flag is set as soon as one token is one of its names, whatever the
    start value; it is never cleared. *)
Definition flagFrom (names tokens : list string) (start : option bool) : option bool :=
  if existsb (fun t => existsb (String.eqb t) names) tokens then Some true else start.

(** The specification's parser over tokens: the base key is the last token
    that is no modifier name. *)
Definition parseTokensSpec (tokens : list string) (start : KeyCombination.t) : KeyCombination.t :=
  KeyCombination.mk
    (last (filter (fun t => negb (isModifierToken t)) tokens) (KeyCombination.key start))
    (flagFrom ["ctrl"; "control"] tokens (KeyCombination.ctrlKey start))
    (flagFrom ["shift"] tokens (KeyCombination.shiftKey start))
    (flagFrom ["alt"] tokens (KeyCombination.altKey start))
    (flagFrom ["cmd"; "meta"] tokens (KeyCombination.metaKey start)).

Definition parseKeyComboSpec (keyCombo : string) : KeyCombination.t :=
  parseTokensSpec (tokensOf keyCombo) emptyCombo.

(** The specification's normalisation of the event's key. *)
Definition normalizeKeySpec (key : string) : string :=
  if key =? " " then "space"
  else if toLowerCase key =? "escape" then "esc"
  else toLowerCase key.

(** A part of a combination string that names the meta modifier. *)
Definition isMetaToken (part : string) : bool :=
  let p := trim (toLowerCase part) in
  (p =? "cmd") || (p =? "meta").

(** The combination without its meta flag. *)
Definition withoutMeta (c : KeyCombination.t) : KeyCombination.t :=
  KeyCombination.mk (KeyCombination.key c) (KeyCombination.ctrlKey c)
    (KeyCombination.shiftKey c) (KeyCombination.altKey c) None.

(* ================================================================== *)
(** ** Lookups, well-formedness and the predicates of the claims *)

(** The entry registered at (category, name), if any. *)
Definition lookupEntry {Action App : Type} (st : State Action App)
    (category name : string) : option (ShortcutEntry Action) :=
  match JsMap.get (shortcutsRegistry st) category with
  | Some registry => JsMap.get registry name
  | None => None
  end.

(** A [Map] holds a key once. *)
Definition uniqueKeys {V : Type} (m : JsMap.t V) : Prop := NoDup (map fst m).

(** The first entry of a sequence that is enabled and matches the event. *)
Definition firstEnabledMatch {Action : Type} (event : KeyboardEvent.t)
    (l : list (ShortcutEntry Action)) : option (ShortcutEntry Action) :=
  find (fun s => truthy (enabled s) && matchesKeyCombo event (keyCombo s)) l.

Definition hasOrder {Action : Type} (e : ShortcutEntry Action) : bool :=
  match order e with
  | Some _ => true
  | None => false
  end.

(** Every entry without an order stands after all entries that have one. *)
Fixpoint undefinedOrderLast {Action : Type} (l : list (ShortcutEntry Action)) : bool :=
  match l with
  | [] => true
  | e :: r =>
      (hasOrder e || forallb (fun x => negb (hasOrder x)) r) && undefinedOrderLast r
  end.

(** The entries of a sequence whose effective order is [k]. *)
Definition withOrder {Action : Type} (k : JsNumber.t) (l : list (ShortcutEntry Action))
    : list (ShortcutEntry Action) :=
  filter (fun e => JsNumber.same (orderOrMax e) k) l.

(** The state a callback leaves when it is called inside
    [try { ... } catch (error) { console.error(message, error) }]. *)
Definition stateAfterCall {Action App : Type}
    (run : Action -> State Action App -> result unit * State Action App)
    (a : Action) (message : string) (st : State Action App) : State Action App :=
  match fst (run a st) with
  | Ok _ => snd (run a st)
  | Throw e => withConsole (console (snd (run a st)) ++ [(message, e)]) (snd (run a st))
  end.

(** A computation that returns a value in every state. *)
Definition neverThrows {Action App A : Type} (m : M Action App A) : Prop :=
  forall st, returns (res (m st)) = true.

Notation "x <- c ;; k" := (bind c (fun x => k))
  (at level 61, c at next level, right associativity).

(* ================================================================== *)
(** ** A concrete application, for the examples *)

(** Three callbacks: two that record that they ran, one that throws. *)
Inductive DemoAction : Type :=
| fn1
| fn2
| failing.

Definition DemoState : Type := State DemoAction (list string).

Definition record (who : string) (st : DemoState) : DemoState :=
  mkState (shortcutsRegistry st) (storeShortcuts st) (storeVersion st) (updateTimer st)
    (pendingTimeouts st) (nextTimeout st) (console st) (app st ++ [who]).

Definition runDemo (a : DemoAction) (st : DemoState) : result unit * DemoState :=
  match a with
  | fn1 => (Ok tt, record "fn1" st)
  | fn2 => (Ok tt, record "fn2" st)
  | failing => (Throw "boom", st)
  end.

Definition demoStart : DemoState := initialState [].

(** register [("nav","next","ArrowDown",fn1,"desc")], then
    [("edit","del","Delete",fn2,"desc")], both without an order. *)
Definition registerNextThenDel : M DemoAction (list string) unit :=
  _ <- registerShortcut "nav" "next" "ArrowDown" fn1 "desc" None None ;;
  registerShortcut "edit" "del" "Delete" fn2 "desc" None None.

(** The same, followed by the debounce timeout firing. *)
Definition nextThenDelCommitted : DemoState :=
  final ((_ <- registerNextThenDel ;; timeoutFires 2) demoStart).

(** An entry ordered 2^53 and one without order, committed to the store. *)
Definition lateAndPlainCommitted : DemoState :=
  final ((_ <- registerShortcut "tools" "late" "L" fn1 "desc" None (Some (JsNumber.Finite 9007199254740992)) ;;
          _ <- registerShortcut "tools" "plain" "P" fn2 "desc" None None ;;
          timeoutFires 2) demoStart).

(** Two entries in different categories bound to [Ctrl+A], the first one
    throwing, and a disabled one ordered before both; all committed. *)
Definition conflictCommitted : DemoState :=
  final ((_ <- registerShortcut "category1" "action1" "Ctrl+A" failing "First action" None None ;;
          _ <- registerShortcut "category2" "action2" "Ctrl+A" fn2 "Second action" None None ;;
          _ <- registerShortcut "category2" "off" "Ctrl+A" fn1 "Disabled" (Some false) (Some (JsNumber.Finite 0)) ;;
          timeoutFires 3) demoStart).

Definition ctrlA : KeyboardEvent.t := keydown "a" true false false false.


(* ================================================================== *)
(** ** The mount effect of the hook, and the invariants of the module state *)

(** The effect [useShortcutsRegistry] runs once after mounting: when the
    registry already holds a category, rebuild the store at once.
    [initialized] is [initialized.current]; the result is its value after
    the effect. *)
Definition useShortcutsRegistry_mountEffect {Action App : Type} (initialized : bool)
    : M Action App bool :=
  size <- gets (fun st => JsMap.size (shortcutsRegistry st)) ;;
  if negb initialized && Nat.ltb 0 size
  then _ <- updateRegistry ;; ret true
  else ret initialized.

(** An entry is filed under its own name, in its own category, and its
    [enabled] flag is a boolean. *)
Definition entryFiled {Action : Type} (c : string)
    (kv : string * ShortcutEntry Action) : Prop :=
  name (snd kv) = fst kv /\ category (snd kv) = c /\ enabled (snd kv) <> None.

(** A category of the registry: names held once, at least one entry, every
    entry filed where it belongs. *)
Definition categoryWellFormed {Action : Type}
    (kv : string * JsMap.t (ShortcutEntry Action)) : Prop :=
  uniqueKeys (snd kv) /\ snd kv <> [] /\ Forall (entryFiled (fst kv)) (snd kv).

(** What the registry map looks like between two calls. *)
Definition registryInvariant {Action App : Type} (st : State Action App) : Prop :=
  uniqueKeys (shortcutsRegistry st) /\ Forall categoryWellFormed (shortcutsRegistry st).

(** What the debounce timer looks like between two calls: timeout ids are
    positive and below the next one, and the only timeout that can be
    pending is the one remembered in [updateTimer]. *)
Definition timersInvariant {Action App : Type} (st : State Action App) : Prop :=
  (1 <= nextTimeout st)%nat
  /\ (forall id, updateTimer st = Some id -> (1 <= id < nextTimeout st)%nat)
  /\ (pendingTimeouts st = []
      \/ exists id, updateTimer st = Some id /\ pendingTimeouts st = [id]).

(** A category name that [Object.prototype] answers to. *)
Definition inheritedName (c : string) : bool :=
  (c =? "__proto__") || existsb (String.eqb c) JsObject.ObjectPrototypeNames.

(** An entry whose effective order is a number, not NaN. *)
Definition orderIsNumber {Action : Type} (e : ShortcutEntry Action) : bool :=
  negb (JsNumber.isNaN (orderOrMax e)).

(** What one iteration of the rebuild does to the own properties of the
    record, for a category other than ['__proto__']. *)
Definition updateOwn {Action : Type} (own : list (string * list (ShortcutEntry Action)))
    (kv : string * JsMap.t (ShortcutEntry Action)) : list (string * list (ShortcutEntry Action)) :=
  JsMap.set own (fst kv) (JsArray.sort compareOrder (JsMap.values (snd kv))).

(** The record [updateRegistry] starts from: every default category, empty. *)
Definition defaultShortcuts {Action : Type} : JsObject.t (ShortcutEntry Action) :=
  JsObject.mk (map (fun d => (d, [])) DEFAULT_SHORTCUT_CATEGORIES) None.

(** The names registered in a category, in insertion order. *)
Definition namesOf {Action App : Type} (st : State Action App) (c : string)
    : list string :=
  match JsMap.get (shortcutsRegistry st) c with
  | Some registry => map fst registry
  | None => []
  end.

(** A string that does not begin with white space. *)
Definition startsClean (s : string) : bool :=
  match s with
  | EmptyString => true
  | String c _ => negb (isWhiteSpace c)
  end.


(* ================================================================== *)
(** ** Facts on strings *)

Lemma toLowerCaseChar_sep (c : ascii) :
  Ascii.eqb (toLowerCaseChar c) "+" = Ascii.eqb c "+".
Proof.
  destruct c as [[] [] [] [] [] [] [] []]; vm_compute; reflexivity.
Qed.

Lemma toLowerCaseChar_space (c : ascii) :
  Ascii.eqb (toLowerCaseChar c) " " = Ascii.eqb c " ".
Proof.
  destruct c as [[] [] [] [] [] [] [] []]; vm_compute; reflexivity.
Qed.

Lemma isWhiteSpace_toLowerCaseChar (c : ascii) :
  isWhiteSpace (toLowerCaseChar c) = isWhiteSpace c.
Proof.
  destruct c as [[] [] [] [] [] [] [] []]; vm_compute; reflexivity.
Qed.

Lemma toLowerCase_app (s t : string) :
  toLowerCase (s ++ t) = (toLowerCase s ++ toLowerCase t)%string.
Proof.
  induction s as [|c s IH]; simpl; [reflexivity | now rewrite IH].
Qed.

Lemma toLowerCase_empty (s : string) :
  toLowerCase s = EmptyString -> s = EmptyString.
Proof.
  destruct s; simpl; [reflexivity | discriminate].
Qed.

Lemma split_not_nil (sep : ascii) (s : string) : split sep s <> [].
Proof.
  induction s as [|c s IH]; simpl; [discriminate|].
  destruct (Ascii.eqb c sep); [discriminate|].
  destruct (split sep s); [contradiction | discriminate].
Qed.

Lemma split_toLowerCase (s : string) :
  split "+" (toLowerCase s) = map toLowerCase (split "+" s).
Proof.
  induction s as [|c s IH]; simpl; [reflexivity|].
  rewrite toLowerCaseChar_sep.
  destruct (Ascii.eqb c "+").
  - simpl. now rewrite IH.
  - rewrite IH. pose proof (split_not_nil "+" s) as Hne.
    destruct (split "+" s) as [|h t]; [contradiction | reflexivity].
Qed.

Lemma trimStart_toLowerCase (s : string) :
  trimStart (toLowerCase s) = toLowerCase (trimStart s).
Proof.
  induction s as [|c s IH]; simpl; [reflexivity|].
  rewrite isWhiteSpace_toLowerCaseChar.
  destruct (isWhiteSpace c); [exact IH | reflexivity].
Qed.

Lemma trimEnd_toLowerCase (s : string) :
  trimEnd (toLowerCase s) = toLowerCase (trimEnd s).
Proof.
  induction s as [|c s IH]; simpl; [reflexivity|].
  rewrite IH, isWhiteSpace_toLowerCaseChar.
  destruct (trimEnd s) as [|d r]; simpl.
  - destruct (isWhiteSpace c); reflexivity.
  - reflexivity.
Qed.

Lemma trim_toLowerCase (s : string) :
  trim (toLowerCase s) = toLowerCase (trim s).
Proof.
  unfold trim. now rewrite trimStart_toLowerCase, trimEnd_toLowerCase.
Qed.

(** Splitting distributes over a separator between two strings. *)
Lemma split_app (sep : ascii) (s t : string) :
  split sep (s ++ String sep t) = split sep s ++ split sep t.
Proof.
  induction s as [|c s IH]; simpl.
  - now rewrite Ascii.eqb_refl.
  - destruct (Ascii.eqb c sep); [now rewrite IH|].
    rewrite IH. pose proof (split_not_nil sep s) as Hne.
    destruct (split sep s) as [|h r]; [contradiction | reflexivity].
Qed.

Lemma split_without_sep (sep : ascii) (s : string) :
  contains sep s = false -> split sep s = [s].
Proof.
  induction s as [|c s IH]; simpl; [reflexivity|].
  intros H. apply orb_false_iff in H as [Hc Hs].
  rewrite Hc, (IH Hs). reflexivity.
Qed.

Lemma contains_trimStart (c : ascii) (s : string) :
  isWhiteSpace c = false -> contains c (trimStart s) = contains c s.
Proof.
  intros Hc. induction s as [|d s IH]; simpl; [reflexivity|].
  destruct (isWhiteSpace d) eqn:Hd; [|reflexivity].
  rewrite IH. destruct (Ascii.eqb d c) eqn:E; [|reflexivity].
  apply Ascii.eqb_eq in E. subst d. congruence.
Qed.

Lemma contains_trimEnd (c : ascii) (s : string) :
  isWhiteSpace c = false -> contains c (trimEnd s) = contains c s.
Proof.
  intros Hc. induction s as [|d s IH]; simpl; [reflexivity|].
  rewrite <- IH.
  destruct (trimEnd s) as [|e r]; simpl; [|reflexivity].
  destruct (isWhiteSpace d) eqn:Hd; simpl; [|reflexivity].
  destruct (Ascii.eqb d c) eqn:E; [|reflexivity].
  apply Ascii.eqb_eq in E. subst d. congruence.
Qed.

Lemma contains_trim (c : ascii) (s : string) :
  isWhiteSpace c = false -> contains c (trim s) = contains c s.
Proof.
  intros Hc. unfold trim.
  now rewrite contains_trimEnd, contains_trimStart.
Qed.

Lemma contains_toLowerCase_sep (s : string) :
  contains "+" (toLowerCase s) = contains "+" s.
Proof.
  induction s as [|c s IH]; simpl; [reflexivity|].
  now rewrite toLowerCaseChar_sep, IH.
Qed.

(** A part naming the meta modifier holds no separator. *)
Lemma isMetaToken_no_sep (part : string) :
  isMetaToken part = true -> contains "+" part = false.
Proof.
  unfold isMetaToken. intros H.
  rewrite <- contains_toLowerCase_sep, <- (contains_trim "+") by reflexivity.
  apply orb_true_iff in H as [H | H]; apply String.eqb_eq in H; rewrite H; reflexivity.
Qed.

Lemma toLowerCase_space (s : string) :
  (toLowerCase s =? " ") = (s =? " ").
Proof.
  destruct (s =? " ") eqn:E.
  - apply String.eqb_eq in E. subst s. reflexivity.
  - apply String.eqb_neq. apply String.eqb_neq in E.
    intros H. apply E. destruct s as [|c r]; simpl in H; [discriminate|].
    injection H as Hc Hr. apply toLowerCase_empty in Hr. subst r.
    f_equal. apply Ascii.eqb_eq. rewrite <- toLowerCaseChar_space, Hc. reflexivity.
Qed.

(* ================================================================== *)
(** ** The parser *)

Lemma last_cons_default {A : Type} (x d : A) (l : list A) :
  last (x :: l) d = last l x.
Proof.
  revert x d. induction l as [|y l IH]; intros x d; [reflexivity|].
  change (last (x :: y :: l) d) with (last (y :: l) d).
  rewrite (IH y d), (IH y x). reflexivity.
Qed.

(** One loop iteration does to the result what the specification says of
    one token. *)
Lemma parseStep_spec (r : KeyCombination.t) (part : string) :
  parseStep r part = parseTokensSpec [trim part] r.
Proof.
  unfold parseStep, parseTokensSpec, flagFrom, isModifierToken.
  cbn [existsb filter].
  destruct (trim part =? "ctrl") eqn:E1;
    [apply String.eqb_eq in E1; rewrite E1; destruct r; reflexivity|].
  destruct (trim part =? "control") eqn:E2;
    [apply String.eqb_eq in E2; rewrite E2; destruct r; reflexivity|].
  destruct (trim part =? "shift") eqn:E3;
    [apply String.eqb_eq in E3; rewrite E3; destruct r; reflexivity|].
  destruct (trim part =? "alt") eqn:E4;
    [apply String.eqb_eq in E4; rewrite E4; destruct r; reflexivity|].
  destruct (trim part =? "cmd") eqn:E5;
    [apply String.eqb_eq in E5; rewrite E5; destruct r; reflexivity|].
  destruct (trim part =? "meta") eqn:E6;
    [apply String.eqb_eq in E6; rewrite E6; destruct r; reflexivity|].
  destruct r; reflexivity.
Qed.

Lemma flagFrom_cons (names : list string) (t : string) (tokens : list string)
    (start : option bool) :
  flagFrom names (t :: tokens) start = flagFrom names tokens (flagFrom names [t] start).
Proof.
  unfold flagFrom. cbn [existsb].
  destruct (existsb (String.eqb t) names); cbn [orb];
    destruct (existsb _ tokens); reflexivity.
Qed.

Lemma parseTokensSpec_cons (t : string) (tokens : list string) (r : KeyCombination.t) :
  parseTokensSpec (t :: tokens) r = parseTokensSpec tokens (parseTokensSpec [t] r).
Proof.
  unfold parseTokensSpec at 1 2.
  rewrite !(flagFrom_cons _ t tokens).
  f_equal.
  cbn [filter KeyCombination.key parseTokensSpec].
  destruct (negb (isModifierToken t)); cbn [last]; [|reflexivity].
  apply last_cons_default.
Qed.

(** The loop over the parts is the specification's parser over the trimmed
    parts, from any start value. *)
Lemma parseLoop_spec (parts : list string) (r : KeyCombination.t) :
  fold_left parseStep parts r = parseTokensSpec (map trim parts) r.
Proof.
  revert r. induction parts as [|p parts IH]; intros r.
  - destruct r; reflexivity.
  - cbn [fold_left map]. rewrite IH, parseStep_spec, <- parseTokensSpec_cons.
    reflexivity.
Qed.

Lemma parts_are_tokens (keyCombo : string) :
  map trim (split "+" (toLowerCase keyCombo)) = tokensOf keyCombo.
Proof.
  unfold tokensOf. rewrite split_toLowerCase, map_map.
  apply map_ext. intros part. apply trim_toLowerCase.
Qed.

(** The result of matching looks at the combination's key, ctrl, shift and
    alt fields only. *)
Lemma matchesCombination_withoutMeta (event : KeyboardEvent.t) (c : KeyCombination.t) :
  matchesCombination event (withoutMeta c) = matchesCombination event c.
Proof. reflexivity. Qed.

Lemma withoutMeta_parseStep (r r' : KeyCombination.t) (part : string) :
  withoutMeta r = withoutMeta r' ->
  withoutMeta (parseStep r part) = withoutMeta (parseStep r' part).
Proof.
  intros H. destruct r, r'. unfold withoutMeta in H. cbn in H.
  injection H as -> -> -> ->.
  unfold parseStep.
  repeat match goal with |- context [if ?b then _ else _] => destruct b end;
    reflexivity.
Qed.

Lemma withoutMeta_parseLoop (parts : list string) (r r' : KeyCombination.t) :
  withoutMeta r = withoutMeta r' ->
  withoutMeta (fold_left parseStep parts r) = withoutMeta (fold_left parseStep parts r').
Proof.
  revert r r'. induction parts as [|p parts IH]; intros r r' H; [exact H|].
  cbn [fold_left]. apply IH, withoutMeta_parseStep, H.
Qed.

Lemma withoutMeta_metaStep (r : KeyCombination.t) (part : string) :
  isMetaToken part = true ->
  withoutMeta (parseStep r (toLowerCase part)) = withoutMeta r.
Proof.
  unfold isMetaToken, parseStep. intros H.
  apply orb_true_iff in H as [H | H]; apply String.eqb_eq in H; rewrite H;
    destruct r; reflexivity.
Qed.

(** A meta part among the parts of a combination leaves everything but the
    meta flag as it is without that part. *)
Lemma withoutMeta_insert (before after : list string) (part : string) :
  isMetaToken part = true ->
  withoutMeta (fold_left parseStep (before ++ toLowerCase part :: after) emptyCombo)
  = withoutMeta (fold_left parseStep (before ++ after) emptyCombo).
Proof.
  intros H. rewrite !fold_left_app. cbn [fold_left].
  apply withoutMeta_parseLoop, withoutMeta_metaStep, H.
Qed.

Lemma split_metaToken (part : string) :
  isMetaToken part = true -> split "+" (toLowerCase part) = [toLowerCase part].
Proof.
  intros H. apply split_without_sep.
  rewrite contains_toLowerCase_sep. apply isMetaToken_no_sep, H.
Qed.

Lemma matchesKeyCombo_withoutMeta (event : KeyboardEvent.t) (s s' : string) :
  withoutMeta (parseKeyCombo s) = withoutMeta (parseKeyCombo s') ->
  matchesKeyCombo event s = matchesKeyCombo event s'.
Proof.
  intros H. unfold matchesKeyCombo.
  rewrite <- (matchesCombination_withoutMeta event (parseKeyCombo s)), H.
  apply matchesCombination_withoutMeta.
Qed.

(** C5 — For every input string, [parseKeyCombo] returns a combination
    (it is a total function, no error is raised) and that combination is the
    one the specification describes: split on ['+'], trim and lower-case
    each token, set the ctrl flag for [ctrl]/[control], the shift flag for
    [shift], the alt flag for [alt], the meta flag for [cmd]/[meta], and take
    as base key the last token that is none of these names (the empty string
    when there is none). Unrecognised tokens become the base key. *)
Theorem parseKeyCombo_refines_spec :
  (forall keyCombo : string, parseKeyCombo keyCombo = parseKeyComboSpec keyCombo)
  /\ parseKeyCombo "Ctrl+Shift+Z" = KeyCombination.mk "z" (Some true) (Some true) None None
  /\ parseKeyCombo " control + Meta+ALT +x" = KeyCombination.mk "x" (Some true) None (Some true) (Some true)
  /\ parseKeyCombo "Ctrl+A+B" = KeyCombination.mk "b" (Some true) None None None
  /\ parseKeyCombo "Hyper+?" = KeyCombination.mk "?" None None None None
  /\ parseKeyCombo "Cmd" = KeyCombination.mk "" None None None (Some true).
Proof.
  split; [|repeat split; reflexivity].
  intros keyCombo. unfold parseKeyCombo, parseKeyComboSpec.
  rewrite parseLoop_spec, parts_are_tokens. reflexivity.
Qed.

(** C2 — [matchesKeyCombo] matches modifiers exactly, with ctrl and meta
    unified: it answers true exactly when the key matches, the event's
    (ctrlKey or metaKey) equals the combination's ctrl flag, and the event's
    shiftKey and altKey equal the combination's shift and alt flags. So
    [{key:'a', ctrlKey:true}] and [{key:'a', metaKey:true}] match ["Ctrl+A"],
    [{key:'a', ctrlKey:true}] does not match ["Shift+A"], ctrl and shift
    together do not match ["Ctrl+A"], and a combination with no ctrl, shift
    or alt flag matches only events with no modifier pressed. *)
Theorem matchesKeyCombo_exact_modifiers :
  (forall (event : KeyboardEvent.t) (keyCombo : string),
      matchesKeyCombo event keyCombo = true <->
      ((normalizedEventKey event =? KeyCombination.key (parseKeyCombo keyCombo))
       || (toLowerCase (KeyboardEvent.code event)
           =? ("key" ++ KeyCombination.key (parseKeyCombo keyCombo))%string)) = true
      /\ (KeyboardEvent.ctrlKey event || KeyboardEvent.metaKey event)
         = truthy (KeyCombination.ctrlKey (parseKeyCombo keyCombo))
      /\ KeyboardEvent.shiftKey event = truthy (KeyCombination.shiftKey (parseKeyCombo keyCombo))
      /\ KeyboardEvent.altKey event = truthy (KeyCombination.altKey (parseKeyCombo keyCombo)))
  /\ matchesKeyCombo (keydown "a" true false false false) "Ctrl+A" = true
  /\ matchesKeyCombo (keydown "a" false false false true) "Ctrl+A" = true
  /\ matchesKeyCombo (keydown "a" true false false false) "Shift+A" = false
  /\ matchesKeyCombo (keydown "a" true true false false) "Ctrl+A" = false
  /\ (forall (event : KeyboardEvent.t) (keyCombo : string),
        truthy (KeyCombination.ctrlKey (parseKeyCombo keyCombo)) = false ->
        truthy (KeyCombination.shiftKey (parseKeyCombo keyCombo)) = false ->
        truthy (KeyCombination.altKey (parseKeyCombo keyCombo)) = false ->
        matchesKeyCombo event keyCombo = true ->
        KeyboardEvent.ctrlKey event = false /\ KeyboardEvent.metaKey event = false
        /\ KeyboardEvent.shiftKey event = false /\ KeyboardEvent.altKey event = false).
Proof.
  assert (Hiff : forall (event : KeyboardEvent.t) (keyCombo : string),
      matchesKeyCombo event keyCombo = true <->
      ((normalizedEventKey event =? KeyCombination.key (parseKeyCombo keyCombo))
       || (toLowerCase (KeyboardEvent.code event)
           =? ("key" ++ KeyCombination.key (parseKeyCombo keyCombo))%string)) = true
      /\ (KeyboardEvent.ctrlKey event || KeyboardEvent.metaKey event)
         = truthy (KeyCombination.ctrlKey (parseKeyCombo keyCombo))
      /\ KeyboardEvent.shiftKey event = truthy (KeyCombination.shiftKey (parseKeyCombo keyCombo))
      /\ KeyboardEvent.altKey event = truthy (KeyCombination.altKey (parseKeyCombo keyCombo))).
  { intros event keyCombo. unfold matchesKeyCombo, matchesCombination.
    rewrite !andb_true_iff, !Bool.eqb_true_iff.
    split.
    - intros [[[Hk Hc] Hs] Ha]. auto.
    - intros (Hk & Hc & Hs & Ha). auto. }
  split; [exact Hiff|].
  do 4 (split; [reflexivity|]).
  intros event keyCombo Hc Hs Ha Hm.
  apply Hiff in Hm as (_ & Hc' & Hs' & Ha').
  rewrite Hc in Hc'. rewrite Hs in Hs'. rewrite Ha in Ha'.
  apply orb_false_iff in Hc' as [H1 H2]. auto.
Qed.

(** C6 — [matchesKeyCombo] compares the combination's key with the event's
    key normalised: [' '] becomes ['space'], a key that lower-cases to
    ['escape'] becomes ['esc'], any other key is lower-cased. So an event
    whose key is [' '] matches ["Space"] and one whose key is ['Escape']
    matches ["Esc"]. *)
Theorem matchesKeyCombo_normalizes_key :
  (forall event : KeyboardEvent.t,
      normalizedEventKey event = normalizeKeySpec (KeyboardEvent.key event))
  /\ (forall (event : KeyboardEvent.t) (keyCombo : string),
        matchesKeyCombo event keyCombo =
        ((normalizeKeySpec (KeyboardEvent.key event) =? KeyCombination.key (parseKeyCombo keyCombo))
         || (toLowerCase (KeyboardEvent.code event)
             =? ("key" ++ KeyCombination.key (parseKeyCombo keyCombo))%string))
        && Bool.eqb (truthy (KeyCombination.ctrlKey (parseKeyCombo keyCombo)))
             (KeyboardEvent.ctrlKey event || KeyboardEvent.metaKey event)
        && Bool.eqb (truthy (KeyCombination.shiftKey (parseKeyCombo keyCombo)))
             (KeyboardEvent.shiftKey event)
        && Bool.eqb (truthy (KeyCombination.altKey (parseKeyCombo keyCombo)))
             (KeyboardEvent.altKey event))
  /\ normalizeKeySpec " " = "space"
  /\ normalizeKeySpec "Escape" = "esc"
  /\ normalizeKeySpec "ESCAPE" = "esc"
  /\ normalizeKeySpec "ArrowDown" = "arrowdown"
  /\ matchesKeyCombo (keydown " " false false false false) "Space" = true
  /\ matchesKeyCombo (keydown "Escape" false false false false) "Esc" = true.
Proof.
  assert (Hn : forall event : KeyboardEvent.t,
             normalizedEventKey event = normalizeKeySpec (KeyboardEvent.key event)).
  { intros event. unfold normalizedEventKey, normalizeKeySpec.
    rewrite toLowerCase_space.
    destruct (KeyboardEvent.key event =? " "); reflexivity. }
  split; [exact Hn|].
  split; [|repeat split; reflexivity].
  intros event keyCombo. unfold matchesKeyCombo, matchesCombination.
  rewrite Hn. reflexivity.
Qed.

(** C9 — [matchesKeyCombo] never consults the combination's meta flag:
    whatever that flag is, the answer is the same, so putting a [cmd]/[meta]
    part into a combination string (in the middle, in front, at the end, or
    as its only part), or taking it out, does not change the result. [{key:'d'}] with no
    modifier matches ["Cmd+D"]; [{key:'d', metaKey:true}] does not. *)
Theorem matchesKeyCombo_ignores_meta :
  (forall (event : KeyboardEvent.t) (combo : KeyCombination.t) (m : option bool),
      matchesCombination event
        (KeyCombination.mk (KeyCombination.key combo) (KeyCombination.ctrlKey combo)
           (KeyCombination.shiftKey combo) (KeyCombination.altKey combo) m)
      = matchesCombination event combo)
  /\ (forall (event : KeyboardEvent.t) (before part after : string),
        isMetaToken part = true ->
        matchesKeyCombo event (before ++ "+" ++ part ++ "+" ++ after)%string
        = matchesKeyCombo event (before ++ "+" ++ after)%string
        /\ matchesKeyCombo event (part ++ "+" ++ after)%string = matchesKeyCombo event after
        /\ matchesKeyCombo event (before ++ "+" ++ part)%string = matchesKeyCombo event before
        /\ matchesKeyCombo event part = matchesKeyCombo event "")
  /\ matchesKeyCombo (keydown "d" false false false false) "Cmd+D" = true
  /\ matchesKeyCombo (keydown "d" false false false true) "Cmd+D" = false.
Proof.
  split; [reflexivity|].
  split; [|split; reflexivity].
  intros event before part after H.
  pose proof (split_metaToken part H) as Hp.
  change ("+" ++ part ++ "+" ++ after)%string with (String "+" (part ++ String "+" after)).
  change ("+" ++ after)%string with (String "+" after).
  change ("+" ++ part)%string with (String "+" part).
  repeat split; apply matchesKeyCombo_withoutMeta; unfold parseKeyCombo.
  - rewrite !toLowerCase_app. cbn [toLowerCase].
    rewrite toLowerCase_app. cbn [toLowerCase].
    change (toLowerCaseChar "+") with "+"%char.
    rewrite !split_app, Hp.
    apply (withoutMeta_insert (split "+" (toLowerCase before)) (split "+" (toLowerCase after)) part H).
  - rewrite toLowerCase_app. cbn [toLowerCase].
    change (toLowerCaseChar "+") with "+"%char.
    rewrite split_app, Hp.
    apply (withoutMeta_insert [] (split "+" (toLowerCase after)) part H).
  - rewrite toLowerCase_app. cbn [toLowerCase].
    change (toLowerCaseChar "+") with "+"%char.
    rewrite split_app, Hp.
    rewrite <- (app_nil_r (split "+" (toLowerCase before))) at 2.
    apply (withoutMeta_insert (split "+" (toLowerCase before)) [] part H).
  - rewrite Hp. cbn [fold_left]. now rewrite (withoutMeta_metaStep emptyCombo part H).
Qed.

(* ================================================================== *)
(** ** Sorting *)

Section SortFacts.
Context {A : Type}.
Variable compareFn : A -> A -> JsNumber.t.

Lemma insertSorted_perm (x : A) (l : list A) :
  Permutation (JsArray.insertSorted compareFn x l) (x :: l).
Proof.
  induction l as [|y l IH]; cbn; [apply Permutation_refl|].
  destruct (JsNumber.SortCompare (compareFn x y) <=? 0)%Z; [apply Permutation_refl|].
  eapply perm_trans; [apply perm_skip, IH | apply perm_swap].
Qed.

Lemma sort_perm (l : list A) : Permutation (JsArray.sort compareFn l) l.
Proof.
  induction l as [|x l IH]; cbn; [apply perm_nil|].
  eapply perm_trans; [apply insertSorted_perm | apply perm_skip, IH].
Qed.

Lemma sort_In (x : A) (l : list A) : In x (JsArray.sort compareFn l) <-> In x l.
Proof.
  split; apply Permutation_in; [|apply Permutation_sym]; apply sort_perm.
Qed.
End SortFacts.

Lemma SortCompare_sub_same (k : JsNumber.t) :
  JsNumber.SortCompare (JsNumber.sub k k) = 0%Z.
Proof. destruct k; cbn; [reflexivity | f_equal; lia | reflexivity | reflexivity]. Qed.

Lemma SortCompare_sub_le (a b : JsNumber.t) :
  JsNumber.isNaN a = false -> JsNumber.isNaN b = false ->
  (JsNumber.SortCompare (JsNumber.sub a b) <= 0)%Z -> JsNumber.leb a b = true.
Proof.
  destruct a, b; cbn; intros; try reflexivity; try discriminate; try lia;
    try (apply Z.leb_le; lia).
Qed.

Lemma SortCompare_sub_gt (a b : JsNumber.t) :
  JsNumber.isNaN a = false -> JsNumber.isNaN b = false ->
  (0 < JsNumber.SortCompare (JsNumber.sub a b))%Z -> JsNumber.leb b a = true.
Proof.
  destruct a, b; cbn; intros; try reflexivity; try discriminate; try lia;
    try (apply Z.leb_le; lia).
Qed.

Lemma JsNumber_leb_trans (a b c : JsNumber.t) :
  JsNumber.leb a b = true -> JsNumber.leb b c = true -> JsNumber.leb a c = true.
Proof.
  destruct a, b, c; cbn; intros Hab Hbc; try reflexivity; try discriminate.
  apply Z.leb_le. apply Z.leb_le in Hab, Hbc. lia.
Qed.

Lemma JsNumber_same_eq (a b : JsNumber.t) : JsNumber.same a b = true <-> a = b.
Proof.
  destruct a, b; cbn; split; intros H; try reflexivity; try discriminate.
  - apply Z.eqb_eq in H. now subst.
  - injection H as ->. apply Z.eqb_refl.
Qed.

Section SortByKey.
Context {A : Type}.
Variable key : A -> JsNumber.t.

Lemma insertSorted_sorted (x : A) (l : list A) :
  JsNumber.isNaN (key x) = false ->
  Forall (fun y => JsNumber.isNaN (key y) = false) l ->
  StronglySorted (fun a b => JsNumber.leb (key a) (key b) = true) l ->
  StronglySorted (fun a b => JsNumber.leb (key a) (key b) = true)
    (JsArray.insertSorted (fun a b => JsNumber.sub (key a) (key b)) x l).
Proof.
  intros Hx. induction l as [|y l IH]; intros Hn Hs; cbn.
  - constructor; constructor.
  - inversion Hs as [|? ? Hl Hy]; subst. inversion Hn as [|? ? Hny Hnl]; subst.
    destruct (JsNumber.SortCompare (JsNumber.sub (key x) (key y)) <=? 0)%Z eqn:E.
    + apply Z.leb_le in E. pose proof (SortCompare_sub_le _ _ Hx Hny E) as Hxy.
      constructor; [exact Hs|].
      constructor; [exact Hxy|].
      eapply Forall_impl; [|exact Hy]. cbn beta. intros z Hz.
      exact (JsNumber_leb_trans _ _ _ Hxy Hz).
    + apply Z.leb_gt in E. pose proof (SortCompare_sub_gt _ _ Hx Hny E) as Hyx.
      constructor; [apply IH; assumption|].
      eapply Permutation_Forall; [apply Permutation_sym, insertSorted_perm|].
      constructor; [exact Hyx | exact Hy].
Qed.

(** Without NaN among the keys, the result of [sort] ascends in the key. *)
Lemma sort_sorted (l : list A) :
  Forall (fun y => JsNumber.isNaN (key y) = false) l ->
  StronglySorted (fun a b => JsNumber.leb (key a) (key b) = true)
    (JsArray.sort (fun a b => JsNumber.sub (key a) (key b)) l).
Proof.
  induction 1 as [|x l Hx Hl IH]; cbn; [constructor|].
  apply insertSorted_sorted; [exact Hx | | exact IH].
  eapply Permutation_Forall; [apply Permutation_sym, sort_perm | exact Hl].
Qed.

Lemma insertSorted_stable (k : JsNumber.t) (x : A) (l : list A) :
  filter (fun e => JsNumber.same (key e) k)
    (JsArray.insertSorted (fun a b => JsNumber.sub (key a) (key b)) x l)
  = filter (fun e => JsNumber.same (key e) k) (x :: l).
Proof.
  induction l as [|y l IH]; [reflexivity|].
  cbn [JsArray.insertSorted].
  destruct (JsNumber.SortCompare (JsNumber.sub (key x) (key y)) <=? 0)%Z eqn:E;
    [reflexivity|].
  apply Z.leb_gt in E.
  cbn [filter] in *. rewrite IH.
  destruct (JsNumber.same (key x) k) eqn:Ex; [|reflexivity].
  destruct (JsNumber.same (key y) k) eqn:Ey; [|reflexivity].
  apply JsNumber_same_eq in Ex, Ey. rewrite Ex, Ey, SortCompare_sub_same in E. lia.
Qed.

(** The sort is stable: entries with one key keep their relative order. *)
Lemma sort_stable (k : JsNumber.t) (l : list A) :
  filter (fun e => JsNumber.same (key e) k)
    (JsArray.sort (fun a b => JsNumber.sub (key a) (key b)) l)
  = filter (fun e => JsNumber.same (key e) k) l.
Proof.
  induction l as [|x l IH]; [reflexivity|].
  cbn [JsArray.sort fold_right].
  change (fold_right (JsArray.insertSorted (fun a b => JsNumber.sub (key a) (key b))) [] l)
    with (JsArray.sort (fun a b => JsNumber.sub (key a) (key b)) l).
  rewrite insertSorted_stable. cbn [filter]. now rewrite IH.
Qed.
End SortByKey.

Lemma fold_left_push {A : Type} (ls : list (list A)) (acc : list A) :
  fold_left (fun acc l => acc ++ l) ls acc = acc ++ concat ls.
Proof.
  revert acc. induction ls as [|l ls IH]; intros acc; cbn.
  - now rewrite app_nil_r.
  - now rewrite IH, app_assoc.
Qed.

(** [flattenAndSort] is the stable sort, by effective order, of the
    categories' sequences put one after the other. *)
Lemma flattenAndSort_eq {Action : Type} (shortcuts : JsObject.t (ShortcutEntry Action)) :
  flattenAndSort shortcuts
  = JsArray.sort (fun a b => JsNumber.sub (orderOrMax a) (orderOrMax b))
      (concat (JsObject.values shortcuts)).
Proof.
  unfold flattenAndSort. rewrite fold_left_push. reflexivity.
Qed.

(* ================================================================== *)
(** ** Maps *)

Section MapFacts.
Context {V : Type}.
Implicit Types (m : JsMap.t V) (k : string) (v : V).

Lemma get_set_same m k v : JsMap.get (JsMap.set m k v) k = Some v.
Proof.
  induction m as [|[k' v'] m IH]; cbn.
  - now rewrite String.eqb_refl.
  - destruct (k' =? k) eqn:E; cbn; [now rewrite String.eqb_refl | now rewrite E].
Qed.

Lemma get_singleton k v : JsMap.get [(k, v)] k = Some v.
Proof. apply (get_set_same []). Qed.

Lemma get_set_other m k k' v :
  k <> k' -> JsMap.get (JsMap.set m k v) k' = JsMap.get m k'.
Proof.
  intros Hne. induction m as [|[k0 v0] m IH]; cbn.
  - apply String.eqb_neq in Hne. now rewrite Hne.
  - destruct (k0 =? k) eqn:E; cbn.
    + apply String.eqb_eq in E. subst k0.
      apply String.eqb_neq in Hne. now rewrite Hne.
    + destruct (k0 =? k'); [reflexivity | exact IH].
Qed.

Lemma get_delete_same m k : JsMap.get (snd (JsMap.delete m k)) k = None.
Proof.
  cbn. induction m as [|[k' v'] m IH]; cbn; [reflexivity|].
  destruct (k' =? k) eqn:E; cbn; [exact IH | now rewrite E].
Qed.

Lemma get_None_keys m k : JsMap.get m k = None <-> ~ In k (map fst m).
Proof.
  induction m as [|[k' v'] m IH]; cbn; [tauto|].
  destruct (k' =? k) eqn:E.
  - apply String.eqb_eq in E. split; [discriminate | intros H; exfalso; apply H; auto].
  - apply String.eqb_neq in E. rewrite IH. tauto.
Qed.

Lemma keys_set m k v :
  map fst (JsMap.set m k v)
  = if JsMap.has m k then map fst m else map fst m ++ [k].
Proof.
  unfold JsMap.has. induction m as [|[k' v'] m IH]; cbn; [reflexivity|].
  destruct (k' =? k) eqn:E; cbn.
  - apply String.eqb_eq in E. now subst.
  - rewrite IH. destruct (JsMap.get m k); reflexivity.
Qed.

Lemma uniqueKeys_set m k v : uniqueKeys m -> uniqueKeys (JsMap.set m k v).
Proof.
  unfold uniqueKeys. intros H. rewrite keys_set.
  unfold JsMap.has. destruct (JsMap.get m k) eqn:E; [exact H|].
  apply get_None_keys in E.
  apply (Permutation_NoDup (l := k :: map fst m)).
  - apply Permutation_cons_append.
  - now constructor.
Qed.

Lemma uniqueKeys_delete m k : uniqueKeys m -> uniqueKeys (snd (JsMap.delete m k)).
Proof.
  unfold uniqueKeys. cbn. induction m as [|[k' v'] m IH]; cbn; [auto|].
  intros H. inversion H as [|? ? Hn Hm]; subst.
  destruct (k' =? k); cbn; [apply IH, Hm|].
  constructor; [|apply IH, Hm].
  intros Hin. apply Hn. apply in_map_iff in Hin as [kv [Hk Hkv]].
  apply filter_In in Hkv as [Hkv _]. apply in_map_iff. eauto.
Qed.

Lemma values_set_In m k v : In v (JsMap.values (JsMap.set m k v)).
Proof.
  unfold JsMap.values. induction m as [|[k' v'] m IH]; cbn; [auto|].
  destruct (k' =? k); cbn; auto.
Qed.
End MapFacts.

Section MoreMapFacts.
Context {V : Type}.
Implicit Types (m : JsMap.t V) (k : string) (v : V).

Lemma get_delete_other m k k' :
  k <> k' -> JsMap.get (snd (JsMap.delete m k)) k' = JsMap.get m k'.
Proof.
  intros Hne. cbn. induction m as [|[k0 v0] m IH]; cbn; [reflexivity|].
  destruct (k0 =? k) eqn:E; cbn.
  - apply String.eqb_eq in E. subst k0.
    apply String.eqb_neq in Hne. now rewrite Hne.
  - destruct (k0 =? k'); [reflexivity | exact IH].
Qed.

Lemma get_In m k v : JsMap.get m k = Some v -> In (k, v) m.
Proof.
  induction m as [|[k0 v0] m IH]; cbn; [discriminate|].
  destruct (k0 =? k) eqn:E.
  - apply String.eqb_eq in E. subst k0. intros [= ->]. now left.
  - intros H. right. apply IH, H.
Qed.

Lemma In_get m k v : uniqueKeys m -> In (k, v) m -> JsMap.get m k = Some v.
Proof.
  unfold uniqueKeys. induction m as [|[k0 v0] m IH]; cbn; [contradiction|].
  intros Hu [H | H]; inversion Hu as [|? ? Hn Hm]; subst.
  - injection H as -> ->. now rewrite String.eqb_refl.
  - destruct (k0 =? k) eqn:E; [|apply IH; assumption].
    apply String.eqb_eq in E. subst k0. exfalso. apply Hn.
    apply in_map_iff. exists (k, v). auto.
Qed.

Lemma set_set m k v v' : JsMap.set (JsMap.set m k v) k v' = JsMap.set m k v'.
Proof.
  induction m as [|[k0 v0] m IH]; cbn.
  - now rewrite String.eqb_refl.
  - destruct (k0 =? k) eqn:E; cbn; [now rewrite String.eqb_refl|].
    now rewrite E, IH.
Qed.

Lemma set_get_same m k v : JsMap.get m k = Some v -> JsMap.set m k v = m.
Proof.
  induction m as [|[k0 v0] m IH]; cbn; [discriminate|].
  destruct (k0 =? k) eqn:E.
  - apply String.eqb_eq in E. subst k0. now intros [= ->].
  - intros H. now rewrite IH.
Qed.

Lemma delete_absent m k : JsMap.get m k = None -> snd (JsMap.delete m k) = m.
Proof.
  cbn. induction m as [|[k0 v0] m IH]; cbn; [reflexivity|].
  destruct (k0 =? k) eqn:E; [discriminate|].
  intros H. cbn. now rewrite IH.
Qed.

(** Deleting a key that was just added to a map without it gives the map back. *)
Lemma delete_set_absent m k v :
  JsMap.get m k = None -> snd (JsMap.delete (JsMap.set m k v) k) = m.
Proof.
  cbn. induction m as [|[k0 v0] m IH]; cbn.
  - now rewrite String.eqb_refl.
  - destruct (k0 =? k) eqn:E; [discriminate|].
    intros H. cbn. rewrite E. cbn. now rewrite IH.
Qed.

Lemma Forall_set (P : string * V -> Prop) m k v :
  Forall P m -> P (k, v) -> Forall P (JsMap.set m k v).
Proof.
  intros Hm Hk. induction m as [|[k0 v0] m IH]; cbn; [now constructor|].
  inversion Hm as [|? ? H0 Hr]; subst.
  destruct (k0 =? k); constructor; auto.
Qed.

Lemma Forall_delete (P : string * V -> Prop) m k :
  Forall P m -> Forall P (snd (JsMap.delete m k)).
Proof.
  cbn. induction 1 as [|[k0 v0] m H0 Hm IH]; cbn; [constructor|].
  destruct (k0 =? k); cbn; [exact IH | now constructor].
Qed.

Lemma set_not_nil m k v : JsMap.set m k v <> [].
Proof.
  destruct m as [|[k0 v0] m]; cbn; [discriminate|].
  destruct (k0 =? k); discriminate.
Qed.
End MoreMapFacts.

(* ================================================================== *)
(** ** The snapshot built by [updateRegistry] *)

Section SnapshotFacts.
Context {Action : Type}.
Implicit Types (o : JsObject.t (ShortcutEntry Action))
               (own : list (string * list (ShortcutEntry Action)))
               (reg : JsMap.t (JsMap.t (ShortcutEntry Action))).

Lemma object_set_set o (c : string) (v v' : list (ShortcutEntry Action)) :
  JsObject.set (JsObject.set o c v) c v' = JsObject.set o c v'.
Proof.
  unfold JsObject.set.
  destruct ((c =? "__proto__") && negb (JsMap.has (JsObject.own o) c)) eqn:E;
    cbn [JsObject.own JsObject.proto].
  - now rewrite E.
  - unfold JsMap.has at 1. rewrite get_set_same, andb_false_r. now rewrite set_set.
Qed.

(** One iteration of the rebuild amounts to one assignment. *)
Lemma updateCategory_eq o (c : string) (m : JsMap.t (ShortcutEntry Action)) :
  updateCategory o (c, m)
  = JsObject.set o c (JsArray.sort compareOrder (JsMap.values m)).
Proof.
  unfold updateCategory. cbn [fst snd].
  destruct (negb (JsObject.truthy (JsObject.get o c))); [apply object_set_set | reflexivity].
Qed.

Lemma updateOwnLoop_other regs own (c : string) :
  ~ In c (map fst regs) ->
  JsMap.get (fold_left updateOwn regs own) c = JsMap.get own c.
Proof.
  revert own. induction regs as [|[c' m'] regs IH]; intros own Hn; [reflexivity|].
  cbn [fold_left]. cbn in Hn. rewrite IH by tauto.
  unfold updateOwn. cbn [fst snd]. apply get_set_other. tauto.
Qed.

Lemma updateOwnLoop_get regs own (c : string) (m : JsMap.t (ShortcutEntry Action)) :
  uniqueKeys regs -> JsMap.get regs c = Some m ->
  JsMap.get (fold_left updateOwn regs own) c
  = Some (JsArray.sort compareOrder (JsMap.values m)).
Proof.
  unfold uniqueKeys. revert own.
  induction regs as [|[c' m'] regs IH]; intros own Hu Hg; [discriminate|].
  cbn [fold_left]. cbn in Hu, Hg. inversion Hu as [|? ? Hn Hr]; subst.
  destruct (c' =? c) eqn:E.
  - apply String.eqb_eq in E. subst c'. injection Hg as ->.
    rewrite updateOwnLoop_other by exact Hn.
    unfold updateOwn. cbn [fst snd]. apply get_set_same.
  - apply IH; assumption.
Qed.

Lemma updateOwnLoop_uniqueKeys regs own :
  uniqueKeys own -> uniqueKeys (fold_left updateOwn regs own).
Proof.
  revert own. induction regs as [|[c m] regs IH]; intros own Ho; [exact Ho|].
  cbn [fold_left]. apply IH. unfold updateOwn. apply uniqueKeys_set, Ho.
Qed.

(** The own properties after the loop: every category but ['__proto__']. *)
Lemma updateLoop_own reg o :
  JsMap.get (JsObject.own o) "__proto__" = None ->
  JsObject.own (fold_left updateCategory reg o)
  = fold_left updateOwn (snd (JsMap.delete reg "__proto__")) (JsObject.own o).
Proof.
  revert o. induction reg as [|[c m] reg IH]; intros o Ho; [reflexivity|].
  cbn [fold_left]. rewrite updateCategory_eq. unfold JsObject.set, JsMap.has.
  cbn [JsMap.delete snd filter fst].
  destruct (c =? "__proto__") eqn:E.
  - apply String.eqb_eq in E. subst c. rewrite Ho. cbn [negb andb].
    rewrite IH by exact Ho. reflexivity.
  - cbn [negb andb fold_left]. rewrite IH.
    + reflexivity.
    + cbn [JsObject.own]. rewrite get_set_other; [exact Ho|].
      apply String.eqb_neq in E. exact E.
Qed.

(** The prototype after the loop: the ['__proto__'] category, if registered. *)
Lemma updateLoop_proto reg o :
  JsMap.get (JsObject.own o) "__proto__" = None -> uniqueKeys reg ->
  JsObject.proto (fold_left updateCategory reg o)
  = match JsMap.get reg "__proto__" with
    | Some m => Some (JsArray.sort compareOrder (JsMap.values m))
    | None => JsObject.proto o
    end.
Proof.
  unfold uniqueKeys. revert o.
  induction reg as [|[c m] reg IH]; intros o Ho Hu; [reflexivity|].
  cbn [fold_left]. rewrite updateCategory_eq. cbn in Hu.
  inversion Hu as [|? ? Hn Hr]; subst. unfold JsObject.set, JsMap.has.
  cbn [JsMap.get].
  destruct (c =? "__proto__") eqn:E.
  - apply String.eqb_eq in E. subst c. rewrite Ho. cbn [negb andb].
    rewrite IH; [|exact Ho | exact Hr]. apply get_None_keys in Hn. now rewrite Hn.
  - cbn [negb andb]. rewrite IH; [reflexivity | | exact Hr].
    cbn [JsObject.own]. rewrite get_set_other; [exact Ho|].
    apply String.eqb_neq in E. exact E.
Qed.

(** After the rebuild, looking up a registered category gives the stable
    sort of its entries: as own property, or, for ['__proto__'], as the
    prototype that the accessor returns. *)
Lemma snapshot_get_registered reg o (c : string) (m : JsMap.t (ShortcutEntry Action)) :
  JsMap.get (JsObject.own o) "__proto__" = None ->
  uniqueKeys reg -> JsMap.get reg c = Some m ->
  JsObject.get (fold_left updateCategory reg o) c
  = JsObject.ArrayOf (JsArray.sort compareOrder (JsMap.values m)).
Proof.
  intros Ho Hu Hg. unfold JsObject.get. rewrite (updateLoop_own reg o Ho).
  destruct (String.eqb_spec c "__proto__") as [-> | Hne].
  - rewrite updateOwnLoop_other by (apply get_None_keys, get_delete_same).
    rewrite Ho, (updateLoop_proto reg o Ho Hu), Hg. reflexivity.
  - rewrite (updateOwnLoop_get _ _ c m); [reflexivity | apply uniqueKeys_delete, Hu|].
    rewrite get_delete_other by congruence. exact Hg.
Qed.

Lemma updateLoop_proto_absent reg o :
  JsMap.get (JsObject.own o) "__proto__" = None ->
  JsMap.get reg "__proto__" = None ->
  JsObject.proto (fold_left updateCategory reg o) = JsObject.proto o.
Proof.
  revert o. induction reg as [|[c m] reg IH]; intros o Ho Hp; [reflexivity|].
  cbn [fold_left]. rewrite updateCategory_eq. cbn [JsMap.get] in Hp.
  destruct (c =? "__proto__") eqn:E; [discriminate|].
  unfold JsObject.set. rewrite E. cbn [andb]. rewrite IH; [reflexivity | | exact Hp].
  cbn [JsObject.own]. rewrite get_set_other; [exact Ho|].
  apply String.eqb_neq in E. exact E.
Qed.

(** Looking up a category that is not registered gives what the record
    gave before the loop, as long as ['__proto__'] is not registered. *)
Lemma snapshot_get_unregistered reg o (c : string) :
  JsMap.get (JsObject.own o) "__proto__" = None ->
  JsMap.get reg c = None -> JsMap.get reg "__proto__" = None ->
  JsObject.get (fold_left updateCategory reg o) c = JsObject.get o c.
Proof.
  intros Ho Hg Hp. unfold JsObject.get.
  rewrite (updateLoop_own reg o Ho), (updateLoop_proto_absent reg o Ho Hp).
  rewrite updateOwnLoop_other; [reflexivity|].
  apply get_None_keys. rewrite (delete_absent _ _ Hp). exact Hg.
Qed.

Lemma defaultShortcuts_noOwnProto :
  JsMap.get (JsObject.own (@defaultShortcuts Action)) "__proto__" = None.
Proof. reflexivity. Qed.
End SnapshotFacts.

(* ================================================================== *)
(** ** The operations, state by state *)

Section OperationFacts.
Context {Action App : Type}.
Variable run : Action -> State Action App -> result unit * State Action App.
Implicit Types (st : State Action App) (category name : string).

Lemma debouncedUpdateRegistry_spec st :
  exists st',
    debouncedUpdateRegistry st = mkOutcome (Ok tt) st' []
    /\ shortcutsRegistry st' = shortcutsRegistry st
    /\ storeShortcuts st' = storeShortcuts st
    /\ updateTimer st' = Some (nextTimeout st)
    /\ In (nextTimeout st) (pendingTimeouts st').
Proof.
  eexists. split; [reflexivity|]. cbn.
  repeat split; try reflexivity. apply in_or_app. right. now left.
Qed.

Lemma registerShortcut_spec category name keyCombo (action : Action) description
    (enabled : option bool) (order : option JsNumber.t) st :
  exists st',
    registerShortcut category name keyCombo action description enabled order st
    = mkOutcome (Ok tt) st' []
    /\ lookupEntry st' category name
       = Some (mkEntry name keyCombo description action category
                 (Some (match enabled with Some b => b | None => true end)) order)
    /\ storeShortcuts st' = storeShortcuts st
    /\ updateTimer st' = Some (nextTimeout st)
    /\ In (nextTimeout st) (pendingTimeouts st')
    /\ (uniqueKeys (shortcutsRegistry st) -> uniqueKeys (shortcutsRegistry st')).
Proof.
  unfold registerShortcut, initRegistry, bind, gets, modify, ret, lookupEntry.
  cbn [res final calls].
  destruct (JsMap.has (shortcutsRegistry st) category) eqn:Hhas; cbn [negb res final calls].
  - unfold JsMap.has in Hhas.
    destruct (JsMap.get (shortcutsRegistry st) category) as [registry|] eqn:Hget;
      [|discriminate].
    cbn [res final calls withRegistry shortcutsRegistry].
    eexists. split; [reflexivity|]. cbn.
    rewrite !get_set_same.
    split; [reflexivity|]. split; [reflexivity|]. split; [reflexivity|].
    split; [apply in_or_app; right; now left|].
    apply uniqueKeys_set.
  - cbn [withRegistry shortcutsRegistry]. rewrite get_set_same.
    cbn [res final calls withRegistry shortcutsRegistry].
    eexists. split; [reflexivity|]. cbn.
    rewrite ?get_set_same, ?get_singleton.
    split; [reflexivity|]. split; [reflexivity|]. split; [reflexivity|].
    split; [apply in_or_app; right; now left|].
    intros Hu. now do 2 apply uniqueKeys_set.
Qed.

Lemma unregisterShortcut_spec category name st :
  exists st',
    unregisterShortcut category name st = mkOutcome (Ok tt) st' []
    /\ lookupEntry st' category name = None
    /\ storeShortcuts st' = storeShortcuts st
    /\ (JsMap.get (shortcutsRegistry st) category = None -> st' = st).
Proof.
  unfold unregisterShortcut, bind, gets, modify, ret, lookupEntry.
  cbn [res final calls].
  destruct (JsMap.get (shortcutsRegistry st) category) as [registry|] eqn:Hget.
  2:{ exists st. cbn. rewrite Hget. auto. }
  cbn [res final calls withRegistry shortcutsRegistry].
  set (registry' := snd (JsMap.delete registry name)).
  assert (Hnone : JsMap.get registry' name = None) by apply get_delete_same.
  assert (Hlast : forall st' : State Action App, Some registry = None -> st' = st)
    by discriminate.
  destruct (Nat.eqb (JsMap.size registry') 0);
    destruct (fst (JsMap.delete registry name));
    cbn -[JsMap.get JsMap.set JsMap.delete];
    eexists; (split; [reflexivity|]); cbn -[JsMap.get JsMap.set JsMap.delete];
    rewrite ?get_delete_same, ?get_set_same, ?Hnone;
    (split; [reflexivity|]); (split; [reflexivity|]); apply Hlast.
Qed.

Lemma clearShortcuts_spec category st :
  exists st', clearShortcuts category st = mkOutcome (Ok tt) st' [].
Proof.
  unfold clearShortcuts, bind, gets, modify, ret. cbn [res final calls].
  destruct (fst (JsMap.delete (shortcutsRegistry st) category));
    eexists; reflexivity.
Qed.

Lemma updateRegistry_spec st :
  exists st',
    updateRegistry st = mkOutcome (Ok tt) st' []
    /\ shortcutsRegistry st' = shortcutsRegistry st
    /\ storeShortcuts st'
       = fold_left updateCategory (shortcutsRegistry st) defaultShortcuts.
Proof.
  eexists. split; [reflexivity|]. cbn. split; reflexivity.
Qed.

Lemma timeoutFires_spec (id : nat) st :
  In id (pendingTimeouts st) ->
  exists st',
    timeoutFires id st = mkOutcome (Ok tt) st' []
    /\ shortcutsRegistry st' = shortcutsRegistry st
    /\ storeShortcuts st'
       = fold_left updateCategory (shortcutsRegistry st) defaultShortcuts.
Proof.
  intros Hin. unfold timeoutFires, bind, gets. cbn [res final calls].
  assert (E : existsb (Nat.eqb id) (pendingTimeouts st) = true).
  { apply existsb_exists. exists id. split; [exact Hin | apply Nat.eqb_refl]. }
  rewrite E. eexists. split; [reflexivity|]. cbn. split; reflexivity.
Qed.

Lemma timeoutFires_total (id : nat) st :
  exists st', timeoutFires id st = mkOutcome (Ok tt) st' [].
Proof.
  unfold timeoutFires, bind, gets. cbn [res final calls].
  destruct (existsb (Nat.eqb id) (pendingTimeouts st)); eexists; reflexivity.
Qed.
End OperationFacts.

(* ================================================================== *)
(** ** Direct execution and dispatch *)

Section DispatchFacts.
Context {Action App : Type}.
Variable run : Action -> State Action App -> result unit * State Action App.
Implicit Types (st : State Action App) (category name : string)
               (event : KeyboardEvent.t) (l : list (ShortcutEntry Action)).

Lemma executeShortcut_absent category name st :
  lookupEntry st category name = None ->
  executeShortcut run category name st = mkOutcome (Ok false) st [].
Proof.
  unfold lookupEntry, executeShortcut, bind, gets, ret. cbn [res final calls].
  destruct (JsMap.get (shortcutsRegistry st) category) as [registry|]; [|reflexivity].
  intros ->. reflexivity.
Qed.

Lemma executeShortcut_disabled category name st (s : ShortcutEntry Action) :
  lookupEntry st category name = Some s -> truthy (enabled s) = false ->
  executeShortcut run category name st = mkOutcome (Ok false) st [].
Proof.
  unfold lookupEntry, executeShortcut, bind, gets, ret. cbn [res final calls].
  destruct (JsMap.get (shortcutsRegistry st) category) as [registry|]; [|discriminate].
  intros -> ->. reflexivity.
Qed.

Lemma executeShortcut_enabled category name st (s : ShortcutEntry Action) :
  lookupEntry st category name = Some s -> truthy (enabled s) = true ->
  executeShortcut run category name st
  = mkOutcome
      (Ok (returns (fst (run (action s) st))))
      (stateAfterCall run (action s)
         ("Error executing shortcut " ++ category ++ ":" ++ name ++ ":")%string st)
      [action s].
Proof.
  unfold lookupEntry, executeShortcut, bind, gets, ret, stateAfterCall.
  cbn [res final calls].
  destruct (JsMap.get (shortcutsRegistry st) category) as [registry|]; [|discriminate].
  intros -> ->. cbn [negb res final calls app].
  unfold tryCatch, invoke, bind, ret, consoleError, modify. cbn [res final calls].
  destruct (fst (run (action s) st)) as [[]|e]; reflexivity.
Qed.

(** The loop stops at the first entry that is enabled and matches, and
    calls that entry's action only. *)
Lemma scanShortcuts_spec event l st :
  scanShortcuts run event l st
  = match firstEnabledMatch event l with
    | Some s =>
        mkOutcome (Ok (stopPropagation (preventDefault event)))
          (stateAfterCall run (action s)
             ("Error executing shortcut " ++ name s ++ ":")%string st)
          [action s]
    | None => mkOutcome (Ok event) st []
    end.
Proof.
  unfold firstEnabledMatch. induction l as [|s l IH]; [reflexivity|].
  cbn [scanShortcuts find].
  destruct (truthy (enabled s) && matchesKeyCombo event (keyCombo s)); [|exact IH].
  unfold tryCatch, invoke, bind, ret, consoleError, modify, stateAfterCall.
  cbn [res final calls].
  destruct (fst (run (action s) st)) as [[]|e]; reflexivity.
Qed.

Lemma firstEnabledMatch_split event (before after : list (ShortcutEntry Action))
    (s : ShortcutEntry Action) :
  (forall x, In x before ->
     truthy (enabled x) = false \/ matchesKeyCombo event (keyCombo x) = false) ->
  truthy (enabled s) = true -> matchesKeyCombo event (keyCombo s) = true ->
  firstEnabledMatch event (before ++ s :: after) = Some s.
Proof.
  unfold firstEnabledMatch. intros Hb He Hm.
  induction before as [|x before IH]; simpl.
  - now rewrite He, Hm.
  - assert (E : truthy (enabled x) && matchesKeyCombo event (keyCombo x) = false).
    { destruct (Hb x (or_introl eq_refl)) as [H | H]; rewrite H;
        [reflexivity | apply andb_false_r]. }
    rewrite E. apply IH. intros y Hy. apply Hb. now right.
Qed.

End DispatchFacts.

(* ================================================================== *)
(** ** The dispatch handler *)

(** C1 — On every key press the handler invokes at most one registered
    action and never throws. Any action it invokes belongs to an entry of
    the flattened ordered snapshot that is enabled and matches the event, so
    a disabled entry never fires wherever it stands. When the press does not
    come from a text-entry element and the snapshot reads
    [before ++ s :: after] with every entry of [before] disabled or not
    matching and [s] enabled and matching, the handler suppresses the event's
    default behaviour and propagation, invokes the action of [s] (an
    exception is caught and logged) and nothing else, whatever [after]
    holds. When no entry is enabled and matches, the event and the state are
    left as they were. *)
Theorem handleKeyDown_fires_first_enabled_match :
  forall (Action App : Type)
         (run : Action -> State Action App -> result unit * State Action App)
         (cachedShortcuts : JsObject.t (ShortcutEntry Action))
         (event : KeyboardEvent.t) (st : State Action App),
    (List.length (calls (handleKeyDown run cachedShortcuts event st)) <= 1)%nat
    /\ returns (res (handleKeyDown run cachedShortcuts event st)) = true
    /\ (forall a : Action,
          In a (calls (handleKeyDown run cachedShortcuts event st)) ->
          exists s, In s (flattenAndSort cachedShortcuts) /\ action s = a
                    /\ truthy (enabled s) = true
                    /\ matchesKeyCombo event (keyCombo s) = true)
    /\ (forall (before after : list (ShortcutEntry Action)) (s : ShortcutEntry Action),
          isTextEntryTarget (KeyboardEvent.target event) = false ->
          flattenAndSort cachedShortcuts = before ++ s :: after ->
          (forall x, In x before ->
             truthy (enabled x) = false \/ matchesKeyCombo event (keyCombo x) = false) ->
          truthy (enabled s) = true ->
          matchesKeyCombo event (keyCombo s) = true ->
          handleKeyDown run cachedShortcuts event st
          = mkOutcome (Ok (stopPropagation (preventDefault event)))
              (stateAfterCall run (action s)
                 ("Error executing shortcut " ++ name s ++ ":")%string st)
              [action s])
    /\ (firstEnabledMatch event (flattenAndSort cachedShortcuts) = None ->
        handleKeyDown run cachedShortcuts event st = mkOutcome (Ok event) st []).
Proof.
  intros Action App run cachedShortcuts event st.
  unfold handleKeyDown.
  destruct (isTextEntryTarget (KeyboardEvent.target event)) eqn:Hguard.
  - cbn. repeat split; try lia; try contradiction; discriminate.
  - rewrite scanShortcuts_spec.
    destruct (firstEnabledMatch event (flattenAndSort cachedShortcuts)) as [s|] eqn:Hfind.
    + pose proof Hfind as Hfound. unfold firstEnabledMatch in Hfound.
      apply find_some in Hfound as [Hin Hok]. apply andb_true_iff in Hok as [He Hm].
      cbn [calls res returns List.length].
      split; [lia|]. split; [reflexivity|]. split; [|split].
      * intros a [<- | []]. exists s. auto.
      * intros before after s' _ Hsplit Hb He' Hm'.
        rewrite Hsplit in Hfind.
        rewrite (firstEnabledMatch_split event before after s' Hb He' Hm') in Hfind.
        injection Hfind as ->. reflexivity.
      * discriminate.
    + cbn [calls res returns List.length].
      split; [lia|]. split; [reflexivity|]. split; [|split].
      * intros a [].
      * intros before after s' _ Hsplit Hb He' Hm'.
        rewrite Hsplit in Hfind.
        rewrite (firstEnabledMatch_split event before after s' Hb He' Hm') in Hfind.
        discriminate.
      * reflexivity.
Qed.

(** On [Ctrl+A] with a disabled entry first and two enabled entries bound
    to ["Ctrl+A"], the first enabled one (which throws) is the only one called. *)
Lemma handleKeyDown_fires_first_enabled_match_witness :
  calls (handleKeyDown runDemo (storeShortcuts conflictCommitted) ctrlA conflictCommitted)
  = [failing]
  /\ (List.length
        (calls (handleKeyDown runDemo (storeShortcuts conflictCommitted) ctrlA conflictCommitted))
      <= 1)%nat.
Proof.
  split; [reflexivity|].
  apply (handleKeyDown_fires_first_enabled_match DemoAction (list string) runDemo
           (storeShortcuts conflictCommitted) ctrlA conflictCommitted).
Defined.




(* ================================================================== *)
(** ** Totality of the registry operations *)

(** C8 — The claim that a lookup with an unknown category yields an empty
    result does not hold for the names every object inherits: in the initial
    state, where no category of that name exists in the registry or in the
    store, [getShortcuts] returns the member of [Object.prototype] found under
    ['constructor'], ['toString'] and ['hasOwnProperty'], and the prototype
    itself under ['__proto__'], while [hasShortcut] says there is no such
    category. *)
Theorem getShortcuts_inherited_name :
  forall (Action App : Type) (a : App),
    res (getShortcuts "constructor" (initialState (Action := Action) a))
    = Ok (JsObject.Builtin JsObject.ObjectPrototype "constructor")
    /\ res (getShortcuts "toString" (initialState (Action := Action) a))
       = Ok (JsObject.Builtin JsObject.ObjectPrototype "toString")
    /\ res (getShortcuts "hasOwnProperty" (initialState (Action := Action) a))
       = Ok (JsObject.Builtin JsObject.ObjectPrototype "hasOwnProperty")
    /\ res (getShortcuts "__proto__" (initialState (Action := Action) a))
       = Ok JsObject.ThePrototype
    /\ res (hasShortcut "constructor" "anything" (initialState (Action := Action) a))
       = Ok false
    /\ res (getShortcuts "nowhere" (initialState (Action := Action) a))
       = Ok (JsObject.ArrayOf []).
Proof.
  intros Action App a. repeat split.
Qed.

(** X17 — The mutations and [executeShortcut] return in every state and
    for every argument, whatever the callbacks do. Unregistering in an
    unknown category changes nothing; [hasShortcut] is [false] on a miss;
    [getShortcuts] is empty for a name that is neither in the store nor
    inherited from the prototype. [executeShortcut] returns [false] without
    calling anything when the entry is absent or disabled; when the entry
    exists and is enabled it calls that entry's action and no other, and an
    exception of the action is caught and logged, not propagated. *)
Theorem registry_operations_return :
  forall (Action App : Type)
         (run : Action -> State Action App -> result unit * State Action App),
    (forall category name keyCombo (action : Action) description enabled order,
        neverThrows
          (registerShortcut (App := App) category name keyCombo action description enabled order))
    /\ (forall category name,
          neverThrows (unregisterShortcut (Action := Action) (App := App) category name))
    /\ (forall category, neverThrows (clearShortcuts (Action := Action) (App := App) category))
    /\ (forall category name, neverThrows (executeShortcut run category name))
    /\ (forall (st : State Action App) category,
          JsMap.get (JsObject.own (storeShortcuts st)) category = None ->
          JsObject.proto (storeShortcuts st) = None ->
          inheritedName category = false ->
          getShortcuts category st = mkOutcome (Ok (JsObject.ArrayOf [])) st [])
    /\ (forall (st : State Action App) category name,
          JsMap.get (shortcutsRegistry st) category = None ->
          unregisterShortcut category name st = mkOutcome (Ok tt) st [])
    /\ (forall (st : State Action App) category name,
          lookupEntry st category name = None ->
          hasShortcut category name st = mkOutcome (Ok false) st []
          /\ executeShortcut run category name st = mkOutcome (Ok false) st [])
    /\ (forall (st : State Action App) category name (s : ShortcutEntry Action),
          lookupEntry st category name = Some s ->
          truthy (enabled s) = false ->
          executeShortcut run category name st = mkOutcome (Ok false) st [])
    /\ (forall (st : State Action App) category name (s : ShortcutEntry Action),
          lookupEntry st category name = Some s ->
          truthy (enabled s) = true ->
          executeShortcut run category name st
          = mkOutcome
              (Ok (returns (fst (run (action s) st))))
              (stateAfterCall run (action s)
                 ("Error executing shortcut " ++ category ++ ":" ++ name ++ ":")%string st)
              [action s]).
Proof.
  intros Action App run. unfold neverThrows.
  split.
  { intros category name keyCombo action description enabled order st.
    destruct (registerShortcut_spec category name keyCombo action description enabled order st)
      as (st' & -> & _). reflexivity. }
  split.
  { intros category name st.
    destruct (unregisterShortcut_spec category name st) as (st' & -> & _). reflexivity. }
  split.
  { intros category st. destruct (clearShortcuts_spec category st) as (st' & ->).
    reflexivity. }
  split.
  { intros category name st.
    destruct (lookupEntry st category name) as [s|] eqn:Hl.
    - destruct (truthy (enabled s)) eqn:He.
      + rewrite (executeShortcut_enabled run category name st s Hl He). reflexivity.
      + rewrite (executeShortcut_disabled run category name st s Hl He). reflexivity.
    - rewrite (executeShortcut_absent run category name st Hl). reflexivity. }
  split.
  { intros st category Hown Hproto Hname. unfold getShortcuts, gets, JsObject.get.
    rewrite Hown, Hproto. unfold inheritedName in Hname.
    apply orb_false_iff in Hname as [H1 H2]. rewrite H1.
    unfold JsObject.fromObjectPrototype. rewrite H2. reflexivity. }
  split.
  { intros st category name H.
    destruct (unregisterShortcut_spec category name st) as (st' & -> & _ & _ & Hsame).
    now rewrite (Hsame H). }
  split.
  { intros st category name H. split.
    - unfold hasShortcut, gets, JsMap.has. unfold lookupEntry in H.
      destruct (JsMap.get (shortcutsRegistry st) category); [now rewrite H | reflexivity].
    - apply executeShortcut_absent, H. }
  split.
  { intros st category name s. apply executeShortcut_disabled. }
  intros st category name s. apply executeShortcut_enabled.
Qed.

(** In the committed demo state: an unknown category, the disabled entry,
    the enabled entry whose action throws. *)
Lemma registry_operations_return_witness :
  getShortcuts "nowhere" conflictCommitted
  = mkOutcome (Ok (JsObject.ArrayOf [])) conflictCommitted []
  /\ executeShortcut runDemo "nowhere" "nothing" conflictCommitted
     = mkOutcome (Ok false) conflictCommitted []
  /\ executeShortcut runDemo "category2" "off" conflictCommitted
     = mkOutcome (Ok false) conflictCommitted []
  /\ res (executeShortcut runDemo "category1" "action1" conflictCommitted) = Ok false
  /\ executeShortcut runDemo "category2" "action2" conflictCommitted
     = mkOutcome (Ok true) (record "fn2" conflictCommitted) [fn2].
Proof.
  pose proof (registry_operations_return DemoAction (list string) runDemo)
    as (_ & _ & _ & _ & Hget & _ & Habsent & Hoff & Hon).
  split; [apply Hget; reflexivity|].
  split; [apply (Habsent conflictCommitted "nowhere" "nothing"); reflexivity|].
  split.
  { apply (Hoff conflictCommitted "category2" "off"
             (mkEntry "off" "Ctrl+A" "Disabled" fn1 "category2" (Some false)
                (Some (JsNumber.Finite 0))));
      reflexivity. }
  split.
  { rewrite (Hon conflictCommitted "category1" "action1"
               (mkEntry "action1" "Ctrl+A" "First action" failing "category1" (Some true) None)
               eq_refl eq_refl).
    reflexivity. }
  rewrite (Hon conflictCommitted "category2" "action2"
             (mkEntry "action2" "Ctrl+A" "Second action" fn2 "category2" (Some true) None)
             eq_refl eq_refl).
  reflexivity.
Defined.

(** C10 — When the entry at (category, name) exists and is enabled and its
    action throws, [executeShortcut] returns [false], the value it returns
    for an absent or a disabled entry. The call itself changes nothing but
    the console, where it logs the error: the registry, the store and the
    timers are as the action left them, so unchanged when the action did not
    touch them. *)
Theorem executeShortcut_action_throws :
  forall (Action App : Type)
         (run : Action -> State Action App -> result unit * State Action App)
         (st : State Action App) (category name : string)
         (s : ShortcutEntry Action) (e : string),
    lookupEntry st category name = Some s ->
    truthy (enabled s) = true ->
    fst (run (action s) st) = Throw e ->
    res (executeShortcut run category name st) = Ok false
    /\ calls (executeShortcut run category name st) = [action s]
    /\ final (executeShortcut run category name st)
       = withConsole
           (console (snd (run (action s) st))
            ++ [(("Error executing shortcut " ++ category ++ ":" ++ name ++ ":")%string, e)])
           (snd (run (action s) st))
    /\ (forall category' name',
          lookupEntry st category' name' = None ->
          res (executeShortcut run category' name' st)
          = res (executeShortcut run category name st))
    /\ (forall category' name' s',
          lookupEntry st category' name' = Some s' -> truthy (enabled s') = false ->
          res (executeShortcut run category' name' st)
          = res (executeShortcut run category name st))
    /\ (shortcutsRegistry (snd (run (action s) st)) = shortcutsRegistry st ->
        shortcutsRegistry (final (executeShortcut run category name st))
        = shortcutsRegistry st)
    /\ (storeShortcuts (snd (run (action s) st)) = storeShortcuts st ->
        storeShortcuts (final (executeShortcut run category name st))
        = storeShortcuts st)
    /\ (snd (run (action s) st) = st ->
        final (executeShortcut run category name st)
        = withConsole
            (console st
             ++ [(("Error executing shortcut " ++ category ++ ":" ++ name ++ ":")%string, e)])
            st).
Proof.
  intros Action App run st category name s e Hl He Hthrow.
  rewrite (executeShortcut_enabled run category name st s Hl He).
  unfold stateAfterCall. rewrite Hthrow. cbn [res final calls returns].
  split; [reflexivity|]. split; [reflexivity|]. split; [reflexivity|].
  split.
  { intros category' name' H. now rewrite (executeShortcut_absent run category' name' st H). }
  split.
  { intros category' name' s' H H'.
    now rewrite (executeShortcut_disabled run category' name' st s' H H'). }
  split; [intros H; exact H|].
  split; [intros H; exact H|].
  intros H. rewrite H. reflexivity.
Qed.

Lemma executeShortcut_action_throws_witness :
  res (executeShortcut runDemo "category1" "action1" conflictCommitted) = Ok false
  /\ shortcutsRegistry (final (executeShortcut runDemo "category1" "action1" conflictCommitted))
     = shortcutsRegistry conflictCommitted
  /\ storeShortcuts (final (executeShortcut runDemo "category1" "action1" conflictCommitted))
     = storeShortcuts conflictCommitted.
Proof.
  pose proof (executeShortcut_action_throws DemoAction (list string) runDemo
                conflictCommitted "category1" "action1"
                (mkEntry "action1" "Ctrl+A" "First action" failing "category1" (Some true) None)
                "boom" eq_refl eq_refl eq_refl)
    as (Hres & _ & _ & _ & _ & Hreg & Hstore & _).
  split; [exact Hres|].
  split; [apply Hreg; reflexivity | apply Hstore; reflexivity].
Defined.

(* ================================================================== *)
(** ** Enumeration order *)

Lemma StronglySorted_after {A : Type} (R : A -> A -> Prop) (before after : list A) (x : A) :
  StronglySorted R (before ++ x :: after) -> Forall (R x) after.
Proof.
  induction before as [|y before IH]; cbn; intros H; inversion H; subst; auto.
Qed.

(** C3, as stated, fails: an entry registered with order 2^53 and then an
    entry registered without order come out with the one without order
    first, although the other one has an order. *)
Lemma getAllShortcuts_undefined_not_last :
  exists l,
    res (getAllShortcuts lateAndPlainCommitted) = Ok l
    /\ map (fun e => (name e, order e)) l
       = [("plain", None); ("late", Some (JsNumber.Finite 9007199254740992))]
    /\ undefinedOrderLast l = false.
Proof.
  eexists. split; [reflexivity|]. split; reflexivity.
Qed.

(** With a NaN among the orders the comparator is inconsistent and the
    sequence need not ascend: orders 2, NaN, 1 stay as they are. *)
Example sort_with_NaN_order :
  map order
    (JsArray.sort compareOrder
       [mkEntry "two" "A" "d" fn1 "tools" (Some true) (Some (JsNumber.Finite 2));
        mkEntry "nan" "B" "d" fn1 "tools" (Some true) (Some JsNumber.NaN);
        mkEntry "one" "C" "d" fn1 "tools" (Some true) (Some (JsNumber.Finite 1))])
  = [Some (JsNumber.Finite 2); Some JsNumber.NaN; Some (JsNumber.Finite 1)].
Proof. reflexivity. Qed.

(** C3, amended — [getAllShortcuts] changes nothing and returns every entry
    of every category that [Object.values] lists for the store (these are
    the store's own properties; a category named ['__proto__'] is never one
    of them). Two calls with nothing in between return the same sequence.
    When no entry's order is NaN, the sequence is in ascending effective
    order, where the effective order of an entry without [order] is
    [Number.MAX_SAFE_INTEGER]: such an entry stands after every entry whose
    order is below that number; and entries of equal effective order keep
    the order of the category enumeration and, within a category, of the
    store's sequence, which [updateRegistry] builds as the stable sort of the
    category's entries in insertion order. After registering ("nav","next")
    and then ("edit","del") without order, once the update has run, "next"
    is listed before "del". *)
Theorem getAllShortcuts_sorted_stable :
  (forall (Action App : Type) (st : State Action App),
      getAllShortcuts st = mkOutcome (Ok (flattenAndSort (storeShortcuts st))) st []
      /\ res ((_ <- getAllShortcuts ;; getAllShortcuts) st) = res (getAllShortcuts st)
      /\ Permutation (flattenAndSort (storeShortcuts st))
           (concat (JsObject.values (storeShortcuts st)))
      /\ (forallb orderIsNumber (concat (JsObject.values (storeShortcuts st))) = true ->
          StronglySorted (fun a b => JsNumber.leb (orderOrMax a) (orderOrMax b) = true)
            (flattenAndSort (storeShortcuts st))
          /\ (forall before after (x : ShortcutEntry Action),
                flattenAndSort (storeShortcuts st) = before ++ x :: after ->
                order x = None ->
                forall a o, In a after -> order a = Some o ->
                  JsNumber.leb (JsNumber.Finite MAX_SAFE_INTEGER) o = true)
          /\ (forall k : JsNumber.t,
                withOrder k (flattenAndSort (storeShortcuts st))
                = withOrder k (concat (JsObject.values (storeShortcuts st)))))
      /\ (forall (c : string) (m : JsMap.t (ShortcutEntry Action)),
            uniqueKeys (shortcutsRegistry st) ->
            JsMap.get (shortcutsRegistry st) c = Some m ->
            JsObject.get (storeShortcuts (final (updateRegistry st))) c
            = JsObject.ArrayOf (JsArray.sort compareOrder (JsMap.values m))
            /\ (forallb orderIsNumber (JsMap.values m) = true ->
                forall k : JsNumber.t,
                  withOrder k (JsArray.sort compareOrder (JsMap.values m))
                  = withOrder k (JsMap.values m))))
  /\ map (fun e => (category e, name e))
       (flattenAndSort (storeShortcuts nextThenDelCommitted))
     = [("nav", "next"); ("edit", "del")].
Proof.
  split; [|reflexivity].
  intros Action App st.
  split; [reflexivity|]. split; [reflexivity|].
  split; [rewrite flattenAndSort_eq; apply sort_perm|].
  split.
  { intros Hnum.
    assert (Hsorted : StronglySorted
                        (fun a b => JsNumber.leb (orderOrMax a) (orderOrMax b) = true)
                        (flattenAndSort (storeShortcuts st))).
    { rewrite flattenAndSort_eq. apply (sort_sorted orderOrMax).
      rewrite forallb_forall in Hnum. apply Forall_forall. intros e He.
      specialize (Hnum e He). unfold orderIsNumber in Hnum.
      now apply negb_true_iff in Hnum. }
    split; [exact Hsorted|]. split.
    - intros before after x Hsplit Hx a o Ha Ho.
      rewrite Hsplit in Hsorted. apply StronglySorted_after in Hsorted.
      rewrite Forall_forall in Hsorted. specialize (Hsorted a Ha).
      unfold orderOrMax in Hsorted. now rewrite Hx, Ho in Hsorted.
    - intros k. unfold withOrder. rewrite flattenAndSort_eq.
      apply (sort_stable orderOrMax). }
  intros c m Hu Hg.
  destruct (updateRegistry_spec st) as (st' & -> & _ & Hstore).
  cbn [final]. rewrite Hstore. split.
  - apply snapshot_get_registered; [reflexivity | assumption | assumption].
  - intros _ k. apply (sort_stable orderOrMax).
Qed.

Lemma getAllShortcuts_sorted_stable_witness :
  StronglySorted (fun a b => JsNumber.leb (orderOrMax a) (orderOrMax b) = true)
    (flattenAndSort (storeShortcuts lateAndPlainCommitted))
  /\ JsObject.get (storeShortcuts (final (updateRegistry nextThenDelCommitted))) "nav"
     = JsObject.ArrayOf
         (JsArray.sort compareOrder
            [mkEntry "next" "ArrowDown" "desc" fn1 "nav" (Some true) None]).
Proof.
  pose proof (proj1 getAllShortcuts_sorted_stable DemoAction (list string)) as H.
  split.
  - destruct (H lateAndPlainCommitted) as (_ & _ & _ & Hnum & _).
    apply Hnum. reflexivity.
  - destruct (H nextThenDelCommitted) as (_ & _ & _ & _ & Hcat).
    apply (Hcat "nav" [("next", mkEntry "next" "ArrowDown" "desc" fn1 "nav" (Some true) None)]).
    + unfold uniqueKeys. cbn. repeat constructor; cbn; intuition discriminate.
    + reflexivity.
Defined.

(* ================================================================== *)
(** ** Registering, then looking up *)

(** C4, as stated, fails: right after [registerShortcut], [getShortcuts]
    still answers from the store, which the pending update has not rebuilt
    yet, although [hasShortcut] already sees the entry. *)
Lemma getShortcuts_lags_registerShortcut :
  res ((_ <- registerShortcut "nav" "next" "ArrowDown" fn1 "desc" None None ;;
        getShortcuts "nav") demoStart) = Ok (JsObject.ArrayOf [])
  /\ res ((_ <- registerShortcut "nav" "next" "ArrowDown" fn1 "desc" None None ;;
           hasShortcut "nav" "next") demoStart) = Ok true.
Proof.
  split; reflexivity.
Qed.

(** C4, amended — For every category and name, right after
    [registerShortcut(category, name, ...)] [hasShortcut(category, name)] is
    true, while the store that [getShortcuts] reads is still the one from
    before the call; the call leaves a pending timeout, and once that timeout
    has fired [getShortcuts(category)] holds the new entry (and [hasShortcut]
    is still true). Right after [unregisterShortcut(category, name)],
    [hasShortcut(category, name)] is false. *)
Theorem register_then_lookup :
  forall (Action App : Type) (st : State Action App)
         (category name keyCombo : string) (action : Action) (description : string)
         (enabled : option bool) (order : option JsNumber.t),
    uniqueKeys (shortcutsRegistry st) ->
    res (hasShortcut category name
           (final (registerShortcut category name keyCombo action description enabled order st)))
    = Ok true
    /\ storeShortcuts
         (final (registerShortcut category name keyCombo action description enabled order st))
       = storeShortcuts st
    /\ (exists id : nat,
          updateTimer
            (final (registerShortcut category name keyCombo action description enabled order st))
          = Some id
          /\ In id
               (pendingTimeouts
                  (final (registerShortcut category name keyCombo action description
                            enabled order st)))
          /\ (exists l,
                res (getShortcuts category
                       (final (timeoutFires id
                          (final (registerShortcut category name keyCombo action description
                                    enabled order st)))))
                = Ok (JsObject.ArrayOf l)
                /\ In (mkEntry name keyCombo description action category
                         (Some (match enabled with Some b => b | None => true end)) order) l)
          /\ res (hasShortcut category name
                    (final (timeoutFires id
                       (final (registerShortcut category name keyCombo action description
                                 enabled order st)))))
             = Ok true)
    /\ res (hasShortcut category name (final (unregisterShortcut category name st)))
       = Ok false.
Proof.
  intros Action App st category name keyCombo action description enabled order Hu.
  destruct (registerShortcut_spec category name keyCombo action description enabled order st)
    as (st1 & -> & Hlook & Hstore & Htimer & Hpending & Huniq).
  cbn [final].
  assert (Hhas : forall st' : State Action App,
             shortcutsRegistry st' = shortcutsRegistry st1 ->
             res (hasShortcut category name st') = Ok true).
  { intros st' Hreg. unfold hasShortcut, gets, JsMap.has. cbn [res].
    unfold lookupEntry in Hlook. rewrite Hreg.
    destruct (JsMap.get (shortcutsRegistry st1) category); [now rewrite Hlook | discriminate]. }
  split; [apply Hhas; reflexivity|].
  split; [exact Hstore|].
  split.
  { exists (nextTimeout st). split; [exact Htimer|]. split; [exact Hpending|].
    destruct (timeoutFires_spec (nextTimeout st) st1 Hpending) as (st2 & -> & Hreg & Hsnap).
    cbn [final]. split; [|apply Hhas, Hreg].
    unfold lookupEntry in Hlook.
    destruct (JsMap.get (shortcutsRegistry st1) category) as [m|] eqn:Hm; [|discriminate].
    unfold getShortcuts, gets. cbn [res]. rewrite Hsnap.
    rewrite (snapshot_get_registered _ _ category m defaultShortcuts_noOwnProto (Huniq Hu) Hm).
    eexists. split; [reflexivity|].
    apply sort_In. unfold JsMap.values. apply in_map_iff.
    exists (name, mkEntry name keyCombo description action category
                    (Some (match enabled with Some b => b | None => true end)) order).
    split; [reflexivity|].
    clear - Hlook. induction m as [|[k v] m IH]; cbn in Hlook; [discriminate|].
    destruct (k =? name) eqn:E.
    - apply String.eqb_eq in E. subst k. injection Hlook as ->. now left.
    - right. apply IH, Hlook. }
  destruct (unregisterShortcut_spec category name st) as (st3 & -> & Hgone & _).
  cbn [final]. unfold hasShortcut, gets, JsMap.has. cbn [res].
  unfold lookupEntry in Hgone.
  destruct (JsMap.get (shortcutsRegistry st3) category); [now rewrite Hgone | reflexivity].
Qed.

Lemma register_then_lookup_witness :
  res (hasShortcut "nav" "next"
         (final (registerShortcut "nav" "next" "ArrowDown" fn1 "desc" None None demoStart)))
  = Ok true
  /\ res (hasShortcut "nav" "next" (final (unregisterShortcut "nav" "next" demoStart)))
     = Ok false.
Proof.
  assert (Hu : uniqueKeys (shortcutsRegistry demoStart)) by constructor.
  pose proof (register_then_lookup DemoAction (list string) demoStart
                "nav" "next" "ArrowDown" fn1 "desc" None None Hu) as (H1 & _ & _ & H2).
  split; [exact H1 | exact H2].
Defined.

(** [Object.values] lists the categories named by an array index first, in
    numeric order, then the others as they were created: the defaults, then
    the registered ones. *)
Example Object_values_enumeration :
  map fst
    (JsObject.entries
       (storeShortcuts
          (final ((_ <- registerShortcut "zeta" "z" "Z" fn1 "desc" None None ;;
                   _ <- registerShortcut "10" "ten" "T" fn1 "desc" None None ;;
                   _ <- registerShortcut "editing" "cut" "X" fn1 "desc" None None ;;
                   _ <- registerShortcut "9" "nine" "N" fn1 "desc" None None ;;
                   _ <- registerShortcut "007" "bond" "B" fn1 "desc" None None ;;
                   timeoutFires 5) demoStart))))
  = ["9"; "10"; "navigation"; "viewSettings"; "tools"; "editing"; "custom"; "zeta"; "007"].
Proof. reflexivity. Qed.

(* ================================================================== *)
(** ** More on the parser: the shape of the base key, the place of modifiers *)

Lemma toLowerCaseChar_idem (c : ascii) :
  toLowerCaseChar (toLowerCaseChar c) = toLowerCaseChar c.
Proof.
  destruct c as [[] [] [] [] [] [] [] []]; vm_compute; reflexivity.
Qed.

Lemma toLowerCase_idem (s : string) : toLowerCase (toLowerCase s) = toLowerCase s.
Proof.
  induction s as [|c s IH]; simpl; [reflexivity|].
  now rewrite toLowerCaseChar_idem, IH.
Qed.

Lemma split_parts_without_sep (sep : ascii) (s : string) :
  Forall (fun part => contains sep part = false) (split sep s).
Proof.
  induction s as [|c s IH]; simpl; [repeat constructor|].
  destruct (Ascii.eqb c sep) eqn:E; [constructor; [reflexivity | exact IH]|].
  destruct (split sep s) as [|h t]; [repeat constructor; simpl; now rewrite E|].
  inversion IH as [|? ? Hh Ht]; subst. constructor; [|exact Ht].
  simpl. now rewrite E, Hh.
Qed.

Lemma startsClean_trimStart (s : string) : startsClean (trimStart s) = true.
Proof.
  induction s as [|c s IH]; simpl; [reflexivity|].
  destruct (isWhiteSpace c) eqn:E; [exact IH | simpl; now rewrite E].
Qed.

Lemma trimStart_of_clean (s : string) : startsClean s = true -> trimStart s = s.
Proof.
  destruct s as [|c s]; simpl; [reflexivity|].
  intros H. apply negb_true_iff in H. now rewrite H.
Qed.

Lemma startsClean_trimEnd (s : string) :
  startsClean s = true -> startsClean (trimEnd s) = true.
Proof.
  destruct s as [|c s]; simpl; [reflexivity|].
  intros H. pose proof H as H'. apply negb_true_iff in H'.
  destruct (trimEnd s); simpl; [rewrite H'; exact H | exact H].
Qed.

Lemma trimEnd_idem (s : string) : trimEnd (trimEnd s) = trimEnd s.
Proof.
  induction s as [|c s IH]; simpl; [reflexivity|].
  destruct (trimEnd s) as [|d r] eqn:E.
  - destruct (isWhiteSpace c) eqn:Hc; simpl; [reflexivity | now rewrite Hc].
  - change (trimEnd (String c (String d r)))
      with (match trimEnd (String d r) with
            | EmptyString => if isWhiteSpace c then EmptyString else String c EmptyString
            | r' => String c r'
            end).
    rewrite IH. reflexivity.
Qed.

(** Trimming twice is trimming once. *)
Lemma trim_idem (s : string) : trim (trim s) = trim s.
Proof.
  unfold trim.
  rewrite (trimStart_of_clean (trimEnd (trimStart s))).
  - apply trimEnd_idem.
  - apply startsClean_trimEnd, startsClean_trimStart.
Qed.

Lemma parseStep_key (r : KeyCombination.t) (part : string) :
  KeyCombination.key (parseStep r part) = KeyCombination.key r
  \/ KeyCombination.key (parseStep r part) = trim part.
Proof.
  unfold parseStep.
  repeat match goal with |- context [if ?b then _ else _] => destruct b end;
    cbn [KeyCombination.key]; auto.
Qed.

(** The base key the loop ends with is the start value or one trimmed part. *)
Lemma parseLoop_key (parts : list string) (r : KeyCombination.t) :
  KeyCombination.key (fold_left parseStep parts r) = KeyCombination.key r
  \/ exists part, In part parts
                  /\ KeyCombination.key (fold_left parseStep parts r) = trim part.
Proof.
  revert r. induction parts as [|p parts IH]; intros r; [now left|].
  cbn [fold_left]. destruct (IH (parseStep r p)) as [H | (q & Hq & H)].
  - rewrite H. destruct (parseStep_key r p) as [H' | H']; [now left|].
    right. exists p. split; [now left | exact H'].
  - right. exists q. split; [now right | exact H].
Qed.

(** X1 — The base key of every parsed combination holds no ['+'], has no
    white space at either end and is in lower case. *)
Theorem parseKeyCombo_key_normalized :
  forall keyCombo : string,
    contains "+" (KeyCombination.key (parseKeyCombo keyCombo)) = false
    /\ trim (KeyCombination.key (parseKeyCombo keyCombo))
       = KeyCombination.key (parseKeyCombo keyCombo)
    /\ toLowerCase (KeyCombination.key (parseKeyCombo keyCombo))
       = KeyCombination.key (parseKeyCombo keyCombo).
Proof.
  intros keyCombo. unfold parseKeyCombo.
  destruct (parseLoop_key (split "+" (toLowerCase keyCombo)) emptyCombo)
    as [H | (part & Hin & H)]; rewrite H.
  - repeat split; reflexivity.
  - pose proof (split_parts_without_sep "+" (toLowerCase keyCombo)) as Hsep.
    rewrite Forall_forall in Hsep. specialize (Hsep part Hin).
    split; [now rewrite contains_trim by reflexivity|].
    split; [apply trim_idem|].
    rewrite split_toLowerCase in Hin. apply in_map_iff in Hin as (q & <- & _).
    now rewrite <- trim_toLowerCase, toLowerCase_idem.
Qed.

Lemma contains_normalizedEventKey (event : KeyboardEvent.t) :
  contains "+" (KeyboardEvent.key event) = true ->
  contains "+" (normalizedEventKey event) = true.
Proof.
  intros H. unfold normalizedEventKey.
  rewrite <- contains_toLowerCase_sep in H.
  destruct (toLowerCase (KeyboardEvent.key event) =? " ") eqn:E1.
  { apply String.eqb_eq in E1. rewrite E1 in H. discriminate. }
  destruct (toLowerCase (KeyboardEvent.key event) =? "escape") eqn:E2.
  { apply String.eqb_eq in E2. rewrite E2 in H. discriminate. }
  exact H.
Qed.

(** X2 — No combination string binds the plus key by its name: an event
    whose [key] holds a ['+'] and whose [code] does not begin with "Key"
    (in any case) matches no combination at all. *)
Theorem plus_key_matches_nothing :
  forall (event : KeyboardEvent.t) (keyCombo : string),
    contains "+" (KeyboardEvent.key event) = true ->
    prefix "key" (toLowerCase (KeyboardEvent.code event)) = false ->
    matchesKeyCombo event keyCombo = false.
Proof.
  intros event keyCombo Hplus Hcode.
  unfold matchesKeyCombo, matchesCombination.
  destruct (parseKeyCombo_key_normalized keyCombo) as (Hk & _ & _).
  assert (E1 : (normalizedEventKey event =? KeyCombination.key (parseKeyCombo keyCombo))
               = false).
  { apply String.eqb_neq. intros Heq.
    pose proof (contains_normalizedEventKey event Hplus) as Hn.
    rewrite Heq, Hk in Hn. discriminate. }
  assert (E2 : (toLowerCase (KeyboardEvent.code event)
                =? ("key" ++ KeyCombination.key (parseKeyCombo keyCombo))%string) = false).
  { apply String.eqb_neq. intros Heq. rewrite Heq in Hcode.
    assert (Hp : prefix "key" ("key" ++ KeyCombination.key (parseKeyCombo keyCombo))%string
                 = true)
      by (apply prefix_correct; cbn;
          destruct (KeyCombination.key (parseKeyCombo keyCombo)); reflexivity).
    rewrite Hp in Hcode. discriminate. }
  rewrite E1, E2. reflexivity.
Qed.

Lemma plus_key_matches_nothing_witness :
  matchesKeyCombo
    (KeyboardEvent.mk "+" "Equal" false true false false plainTarget false false)
    "Shift++" = false.
Proof.
  apply plus_key_matches_nothing; reflexivity.
Defined.











(* ================================================================== *)
(** ** More on maps *)



Lemma entries_In {E : Type} (o : JsObject.t E) (kv : string * list E) :
  In kv (JsObject.entries o) <-> In kv (JsObject.own o).
Proof.
  unfold JsObject.entries. rewrite in_app_iff, sort_In, !filter_In.
  destruct (JsObject.isIndexed kv); cbn; intuition discriminate.
Qed.

Lemma values_In {E : Type} (o : JsObject.t E) (v : list E) :
  In v (JsObject.values o) <-> exists k, In (k, v) (JsObject.own o).
Proof.
  unfold JsObject.values. rewrite in_map_iff. split.
  - intros ([k v'] & <- & H). exists k. now apply entries_In.
  - intros (k & H). exists (k, v). split; [reflexivity | now apply entries_In].
Qed.

(* ================================================================== *)
(** ** The state each mutation leaves *)

Section MutationFacts.
Context {Action App : Type}.
Implicit Types (st : State Action App).

Lemma withRegistry_same st : withRegistry (shortcutsRegistry st) st = st.
Proof. destruct st; reflexivity. Qed.

(** [registerShortcut] writes one entry and re-arms the timer. *)
Lemma registerShortcut_final (c n k : string) (a : Action) (d : string)
    (e : option bool) (o : option JsNumber.t) st :
  registerShortcut c n k a d e o st
  = mkOutcome (Ok tt)
      (final (debouncedUpdateRegistry
         (withRegistry
            (JsMap.set (shortcutsRegistry st) c
               (JsMap.set
                  (match JsMap.get (shortcutsRegistry st) c with
                   | Some m => m
                   | None => []
                   end) n
                  (mkEntry n k d a c (Some (match e with Some b => b | None => true end)) o)))
            st)))
      [].
Proof.
  unfold registerShortcut, initRegistry, bind, gets, modify, ret, JsMap.has.
  cbn [res final calls].
  destruct (JsMap.get (shortcutsRegistry st) c) as [m|] eqn:Hget;
    cbn [negb res final calls withRegistry shortcutsRegistry].
  - rewrite Hget. reflexivity.
  - rewrite get_set_same. cbn -[JsMap.set]. now rewrite set_set.
Qed.

(** [unregisterShortcut] in a known category. *)
Lemma unregisterShortcut_final (c n : string) st (m : JsMap.t (ShortcutEntry Action)) :
  JsMap.get (shortcutsRegistry st) c = Some m ->
  unregisterShortcut c n st
  = mkOutcome (Ok tt)
      (let m' := snd (JsMap.delete m n) in
       let st' :=
         withRegistry
           (if Nat.eqb (JsMap.size m') 0
            then snd (JsMap.delete (JsMap.set (shortcutsRegistry st) c m') c)
            else JsMap.set (shortcutsRegistry st) c m') st in
       if JsMap.has m n then final (debouncedUpdateRegistry st') else st')
      [].
Proof.
  intros Hget. unfold unregisterShortcut, bind, gets, modify, ret.
  cbn [res final calls]. rewrite Hget.
  cbn -[JsMap.get JsMap.set JsMap.delete JsMap.has JsMap.size].
  change (fst (JsMap.delete m n)) with (JsMap.has m n).
  destruct (Nat.eqb (JsMap.size (snd (JsMap.delete m n))) 0);
    destruct (JsMap.has m n); reflexivity.
Qed.

Lemma unregisterShortcut_unknown (c n : string) st :
  JsMap.get (shortcutsRegistry st) c = None ->
  unregisterShortcut c n st = mkOutcome (Ok tt) st [].
Proof.
  intros Hget. unfold unregisterShortcut, bind, gets, ret.
  cbn [res final calls]. now rewrite Hget.
Qed.

(** [clearShortcuts]. *)
Lemma clearShortcuts_final (c : string) st :
  clearShortcuts c st
  = mkOutcome (Ok tt)
      (let st' := withRegistry (snd (JsMap.delete (shortcutsRegistry st) c)) st in
       if JsMap.has (shortcutsRegistry st) c
       then final (debouncedUpdateRegistry st') else st')
      [].
Proof.
  unfold clearShortcuts, bind, gets, modify, ret. cbn [res final calls].
  change (fst (JsMap.delete (shortcutsRegistry st) c))
    with (JsMap.has (shortcutsRegistry st) c).
  destruct (JsMap.has (shortcutsRegistry st) c); reflexivity.
Qed.

Lemma timeoutFires_stale (id : nat) st :
  ~ In id (pendingTimeouts st) -> timeoutFires id st = mkOutcome (Ok tt) st [].
Proof.
  intros Hn. unfold timeoutFires, bind, gets. cbn [res final calls].
  destruct (existsb (Nat.eqb id) (pendingTimeouts st)) eqn:E; [|reflexivity].
  apply existsb_exists in E as (j & Hj & Heq). apply Nat.eqb_eq in Heq. now subst j.
Qed.

Lemma timeoutFires_final (id : nat) st :
  In id (pendingTimeouts st) ->
  timeoutFires id st
  = mkOutcome (Ok tt)
      (final (updateRegistry
         (withTimers (updateTimer st)
            (filter (fun j => negb (Nat.eqb j id)) (pendingTimeouts st))
            (nextTimeout st) st)))
      [].
Proof.
  intros Hin. unfold timeoutFires, bind, gets. cbn [res final calls].
  assert (E : existsb (Nat.eqb id) (pendingTimeouts st) = true).
  { apply existsb_exists. exists id. split; [exact Hin | apply Nat.eqb_refl]. }
  rewrite E. reflexivity.
Qed.

Lemma registryInvariant_projection st st' :
  shortcutsRegistry st' = shortcutsRegistry st ->
  registryInvariant st -> registryInvariant st'.
Proof. unfold registryInvariant. now intros ->. Qed.

Lemma registryInvariant_get st (c : string) (m : JsMap.t (ShortcutEntry Action)) :
  registryInvariant st -> JsMap.get (shortcutsRegistry st) c = Some m ->
  uniqueKeys m /\ m <> [] /\ Forall (entryFiled c) m.
Proof.
  intros [_ Hall] Hget. apply get_In in Hget.
  rewrite Forall_forall in Hall. exact (Hall _ Hget).
Qed.

Lemma registryInvariant_register (c n k : string) (a : Action) (d : string)
    (e : option bool) (o : option JsNumber.t) st :
  registryInvariant st ->
  registryInvariant (final (registerShortcut c n k a d e o st)).
Proof.
  intros Hinv. rewrite registerShortcut_final. cbn [final].
  apply (registryInvariant_projection
           (withRegistry
              (JsMap.set (shortcutsRegistry st) c
                 (JsMap.set
                    (match JsMap.get (shortcutsRegistry st) c with
                     | Some m => m
                     | None => []
                     end) n
                    (mkEntry n k d a c (Some (match e with Some b => b | None => true end)) o)))
              st)); [reflexivity|].
  destruct Hinv as [Hu Hall]. split; cbn [withRegistry shortcutsRegistry].
  - apply uniqueKeys_set, Hu.
  - apply Forall_set; [exact Hall|].
    assert (Hm : uniqueKeys (match JsMap.get (shortcutsRegistry st) c with
                             | Some m => m
                             | None => []
                             end)
                 /\ Forall (entryFiled c)
                      (match JsMap.get (shortcutsRegistry st) c with
                       | Some m => m
                       | None => []
                       end)).
    { destruct (JsMap.get (shortcutsRegistry st) c) as [m|] eqn:Hget.
      - destruct (registryInvariant_get st c m (conj Hu Hall) Hget) as (H1 & _ & H3). auto.
      - split; constructor. }
    destruct Hm as [Hm1 Hm2].
    split; [apply uniqueKeys_set, Hm1|]. split; [apply set_not_nil|].
    apply Forall_set; [exact Hm2|]. repeat split. discriminate.
Qed.

Lemma registryInvariant_unregister (c n : string) st :
  registryInvariant st -> registryInvariant (final (unregisterShortcut c n st)).
Proof.
  intros Hinv.
  destruct (JsMap.get (shortcutsRegistry st) c) as [m|] eqn:Hget.
  2:{ now rewrite (unregisterShortcut_unknown c n st Hget). }
  rewrite (unregisterShortcut_final c n st m Hget). cbn [final].
  destruct (registryInvariant_get st c m Hinv Hget) as (Hm1 & _ & Hm3).
  destruct Hinv as [Hu Hall].
  set (R := if Nat.eqb (JsMap.size (snd (JsMap.delete m n))) 0
            then snd (JsMap.delete (JsMap.set (shortcutsRegistry st) c
                                      (snd (JsMap.delete m n))) c)
            else JsMap.set (shortcutsRegistry st) c (snd (JsMap.delete m n))).
  assert (HR : uniqueKeys R /\ Forall categoryWellFormed R).
  { unfold R. destruct (Nat.eqb (JsMap.size (snd (JsMap.delete m n))) 0) eqn:E.
    - split; [apply uniqueKeys_delete, uniqueKeys_set, Hu|].
      apply Nat.eqb_eq in E. unfold JsMap.size in E.
      apply length_zero_iff_nil in E. rewrite E.
      clear - Hall. cbn. induction Hall as [|[c0 m0] r H0 Hr IH]; cbn.
      + rewrite String.eqb_refl. constructor.
      + destruct (c0 =? c) eqn:Ec; cbn.
        * rewrite String.eqb_refl. cbn. apply (Forall_delete _ r c Hr).
        * rewrite Ec. cbn. constructor; [exact H0 | exact IH].
    - split; [apply uniqueKeys_set, Hu|].
      apply Forall_set; [exact Hall|].
      split; [apply uniqueKeys_delete, Hm1|]. split.
      + intros Hnil. cbn [snd] in Hnil. unfold JsMap.size in E.
        cbn [snd] in E. rewrite Hnil in E. discriminate.
      + apply Forall_delete, Hm3. }
  destruct (JsMap.has m n); exact HR.
Qed.

Lemma registryInvariant_clear (c : string) st :
  registryInvariant st -> registryInvariant (final (clearShortcuts c st)).
Proof.
  intros [Hu Hall]. rewrite clearShortcuts_final. cbn [final].
  assert (HR : uniqueKeys (snd (JsMap.delete (shortcutsRegistry st) c))
               /\ Forall categoryWellFormed (snd (JsMap.delete (shortcutsRegistry st) c))).
  { split; [apply uniqueKeys_delete, Hu | apply Forall_delete, Hall]. }
  destruct (JsMap.has (shortcutsRegistry st) c); exact HR.
Qed.

Lemma timersInvariant_debounced st :
  timersInvariant st ->
  timersInvariant (final (debouncedUpdateRegistry st))
  /\ pendingTimeouts (final (debouncedUpdateRegistry st)) = [nextTimeout st]
  /\ updateTimer (final (debouncedUpdateRegistry st)) = Some (nextTimeout st).
Proof.
  intros (Hnext & Hid & Hpend).
  assert (Hp : pendingTimeouts (final (debouncedUpdateRegistry st)) = [nextTimeout st]).
  { cbn. destruct Hpend as [Hnil | (id & Hut & Hp)].
    - rewrite Hnil. destruct (updateTimer st) as [id|]; [destruct (negb (Nat.eqb id 0))|];
        reflexivity.
    - rewrite Hut, Hp. destruct (Hid id Hut) as [H1 _].
      destruct id as [|id]; [lia|]. cbn. now rewrite Nat.eqb_refl. }
  split; [|split; [exact Hp | reflexivity]].
  split; [cbn; lia|]. split.
  - cbn. intros id [= <-]. lia.
  - right. exists (nextTimeout st). split; [reflexivity | exact Hp].
Qed.

Lemma timersInvariant_projection st st' :
  updateTimer st' = updateTimer st -> pendingTimeouts st' = pendingTimeouts st ->
  nextTimeout st' = nextTimeout st ->
  timersInvariant st -> timersInvariant st'.
Proof. unfold timersInvariant. now intros -> -> ->. Qed.
End MutationFacts.

(* ================================================================== *)
(** ** Invariants *)

(** X4 — The registry map is well formed from the start and every
    mutation keeps it so: categories and the names within one are held once,
    no category is left empty, and every entry is filed under its own name
    and category with a boolean [enabled]. The rebuild of the store, by
    timeout or directly, does not touch the map. *)
Theorem registryInvariant_kept :
  forall (Action App : Type) (st : State Action App),
    registryInvariant st ->
    (forall c n k (a : Action) d e o,
        registryInvariant (final (registerShortcut c n k a d e o st)))
    /\ (forall c n, registryInvariant (final (unregisterShortcut c n st)))
    /\ (forall c, registryInvariant (final (clearShortcuts c st)))
    /\ registryInvariant (final (updateRegistry st))
    /\ (forall id, registryInvariant (final (timeoutFires id st))).
Proof.
  intros Action App st Hinv.
  split; [intros; now apply registryInvariant_register|].
  split; [intros; now apply registryInvariant_unregister|].
  split; [intros; now apply registryInvariant_clear|].
  split; [exact Hinv|].
  intros id. unfold timeoutFires, bind, gets. cbn [res final calls].
  destruct (existsb (Nat.eqb id) (pendingTimeouts st)); exact Hinv.
Qed.

Lemma registryInvariant_initial {Action App : Type} (a : App) :
  registryInvariant (initialState (Action := Action) a).
Proof. split; constructor. Qed.

Lemma registryInvariant_kept_witness :
  registryInvariant
    (final (unregisterShortcut "nav" "next"
       (final (registerShortcut "nav" "next" "ArrowDown" fn1 "desc" None None demoStart)))).
Proof.
  pose proof (registryInvariant_kept DemoAction (list string) demoStart
                (registryInvariant_initial [])) as (Hreg & _).
  pose proof (registryInvariant_kept DemoAction (list string) _
                (Hreg "nav" "next" "ArrowDown" fn1 "desc" None None)) as (_ & Hun & _).
  exact (Hun "nav" "next").
Defined.

(** X5 — The debounce keeps at most one timeout pending, the one
    remembered in [updateTimer]. After a registration exactly one timeout is
    pending, the one just armed, whatever was pending before; removals and
    clears keep the invariant; a timeout that is not pending (cancelled or
    already run) changes nothing when it "fires"; the pending one, when it
    fires, leaves none pending and raises the store's version by one. *)
Theorem debounce_one_pending_timeout :
  forall (Action App : Type) (st : State Action App),
    timersInvariant st ->
    (forall c n k (a : Action) d e o,
        timersInvariant (final (registerShortcut c n k a d e o st))
        /\ pendingTimeouts (final (registerShortcut c n k a d e o st)) = [nextTimeout st]
        /\ updateTimer (final (registerShortcut c n k a d e o st)) = Some (nextTimeout st))
    /\ (forall c n, timersInvariant (final (unregisterShortcut c n st)))
    /\ (forall c, timersInvariant (final (clearShortcuts c st)))
    /\ (forall id, ~ In id (pendingTimeouts st) ->
          timeoutFires id st = mkOutcome (Ok tt) st [])
    /\ (forall id, In id (pendingTimeouts st) ->
          timersInvariant (final (timeoutFires id st))
          /\ pendingTimeouts (final (timeoutFires id st)) = []
          /\ storeVersion (final (timeoutFires id st)) = (storeVersion st + 1)%Z).
Proof.
  intros Action App st Hinv.
  split.
  { intros c n k a d e o. rewrite registerShortcut_final. cbn [final].
    match goal with
    | |- timersInvariant (final (debouncedUpdateRegistry ?x)) /\ _ =>
        apply (timersInvariant_debounced x)
    end.
    revert Hinv. apply timersInvariant_projection; reflexivity. }
  split.
  { intros c n.
    destruct (JsMap.get (shortcutsRegistry st) c) as [m|] eqn:Hget.
    2:{ now rewrite (unregisterShortcut_unknown c n st Hget). }
    rewrite (unregisterShortcut_final c n st m Hget). cbn [final].
    destruct (JsMap.has m n).
    - apply timersInvariant_debounced.
      revert Hinv. apply timersInvariant_projection; reflexivity.
    - revert Hinv. apply timersInvariant_projection; reflexivity. }
  split.
  { intros c. rewrite clearShortcuts_final. cbn [final].
    destruct (JsMap.has (shortcutsRegistry st) c).
    - apply timersInvariant_debounced.
      revert Hinv. apply timersInvariant_projection; reflexivity.
    - revert Hinv. apply timersInvariant_projection; reflexivity. }
  split; [intros id; apply timeoutFires_stale|].
  intros id Hin. rewrite (timeoutFires_final id st Hin). cbn [final].
  destruct Hinv as (Hnext & Hid & Hpend).
  assert (Hp : filter (fun j => negb (Nat.eqb j id)) (pendingTimeouts st) = []).
  { destruct Hpend as [Hnil | (id0 & _ & Hp)].
    - now rewrite Hnil.
    - rewrite Hp in Hin |- *. destruct Hin as [-> | []]. cbn.
      now rewrite Nat.eqb_refl. }
  split; [|split; [exact Hp | reflexivity]].
  split; [exact Hnext|]. split; [exact Hid|]. left. exact Hp.
Qed.

Lemma timersInvariant_initial {Action App : Type} (a : App) :
  timersInvariant (initialState (Action := Action) a).
Proof.
  split; [cbn; lia|]. split; [discriminate | now left].
Qed.

Lemma debounce_one_pending_timeout_witness :
  pendingTimeouts
    (final (registerShortcut "edit" "del" "Delete" fn2 "desc" None None
       (final (registerShortcut "nav" "next" "ArrowDown" fn1 "desc" None None demoStart))))
  = [2].
Proof.
  pose proof (debounce_one_pending_timeout DemoAction (list string) demoStart
                (timersInvariant_initial [])) as (Hreg & _).
  destruct (Hreg "nav" "next" "ArrowDown" fn1 "desc" None None) as (H1 & _).
  pose proof (debounce_one_pending_timeout DemoAction (list string) _ H1) as (Hreg' & _).
  destruct (Hreg' "edit" "del" "Delete" fn2 "desc" None None) as (_ & Hp & _).
  exact Hp.
Defined.

(* ================================================================== *)
(** ** What a mutation changes, and what it leaves alone *)

Section FrameFacts.
Context {Action App : Type}.
Implicit Types (st : State Action App).

Lemma lookupEntry_set st (c : string) (m : JsMap.t (ShortcutEntry Action))
    (st' : State Action App) :
  shortcutsRegistry st' = JsMap.set (shortcutsRegistry st) c m ->
  forall c' n',
    lookupEntry st' c' n'
    = if c' =? c then JsMap.get m n' else lookupEntry st c' n'.
Proof.
  intros Hreg c' n'. unfold lookupEntry. rewrite Hreg.
  destruct (c' =? c) eqn:E.
  - apply String.eqb_eq in E. subst c'. now rewrite get_set_same.
  - apply String.eqb_neq in E. rewrite get_set_other by congruence. reflexivity.
Qed.

Lemma registerShortcut_registry (c n k : string) (a : Action) (d : string)
    (e : option bool) (o : option JsNumber.t) st :
  shortcutsRegistry (final (registerShortcut c n k a d e o st))
  = JsMap.set (shortcutsRegistry st) c
      (JsMap.set
         (match JsMap.get (shortcutsRegistry st) c with
          | Some m => m
          | None => []
          end) n
         (mkEntry n k d a c (Some (match e with Some b => b | None => true end)) o)).
Proof. rewrite registerShortcut_final. reflexivity. Qed.
End FrameFacts.

(** X6 — [registerShortcut(category, name, ...)] is an upsert that keeps
    insertion order: afterwards the pair holds the new entry; every other
    pair holds what it held; a name that was already registered keeps its
    place among the names of its category, a new name goes last; and a
    category that already existed keeps its place among the categories, a
    new one goes last. *)
Theorem registerShortcut_upsert :
  forall (Action App : Type) (st : State Action App)
         (c n k : string) (a : Action) (d : string) (e : option bool) (o : option JsNumber.t),
    lookupEntry (final (registerShortcut c n k a d e o st)) c n
    = Some (mkEntry n k d a c (Some (match e with Some b => b | None => true end)) o)
    /\ (forall c' n', c' <> c \/ n' <> n ->
          lookupEntry (final (registerShortcut c n k a d e o st)) c' n'
          = lookupEntry st c' n')
    /\ namesOf (final (registerShortcut c n k a d e o st)) c
       = match lookupEntry st c n with
         | Some _ => namesOf st c
         | None => namesOf st c ++ [n]
         end
    /\ (forall c', c' <> c ->
          namesOf (final (registerShortcut c n k a d e o st)) c' = namesOf st c')
    /\ map fst (shortcutsRegistry (final (registerShortcut c n k a d e o st)))
       = if JsMap.has (shortcutsRegistry st) c
         then map fst (shortcutsRegistry st)
         else map fst (shortcutsRegistry st) ++ [c].
Proof.
  intros Action App st c n k a d e o.
  pose proof (registerShortcut_registry c n k a d e o st) as Hreg.
  pose proof (lookupEntry_set st c _ _ Hreg) as Hlook.
  split; [rewrite Hlook, String.eqb_refl; apply get_set_same|].
  split.
  { intros c' n' Hne. rewrite Hlook. destruct (c' =? c) eqn:E; [|reflexivity].
    apply String.eqb_eq in E. subst c'. destruct Hne as [Hne | Hne]; [congruence|].
    rewrite get_set_other by congruence. unfold lookupEntry.
    destruct (JsMap.get (shortcutsRegistry st) c); reflexivity. }
  split.
  { unfold namesOf, lookupEntry. rewrite Hreg, get_set_same, keys_set. unfold JsMap.has.
    destruct (JsMap.get (shortcutsRegistry st) c) as [m|]; [|reflexivity].
    destruct (JsMap.get m n); reflexivity. }
  split.
  { intros c' Hne. unfold namesOf. rewrite Hreg, get_set_other by congruence. reflexivity. }
  rewrite Hreg. apply keys_set.
Qed.

(** X7 — [unregisterShortcut(category, name)] removes that pair and no
    other. When the pair was registered a timeout is armed; when it was not,
    and the registry is well formed, the call changes nothing at all (no
    timeout is armed). When the removed name was the only one of its
    category, the category is dropped from the map. *)
Theorem unregisterShortcut_removes_one :
  forall (Action App : Type) (st : State Action App) (c n : string),
    lookupEntry (final (unregisterShortcut c n st)) c n = None
    /\ (forall c' n', c' <> c \/ n' <> n ->
          lookupEntry (final (unregisterShortcut c n st)) c' n' = lookupEntry st c' n')
    /\ (lookupEntry st c n <> None ->
        updateTimer (final (unregisterShortcut c n st)) = Some (nextTimeout st)
        /\ In (nextTimeout st) (pendingTimeouts (final (unregisterShortcut c n st))))
    /\ (registryInvariant st -> lookupEntry st c n = None ->
        unregisterShortcut c n st = mkOutcome (Ok tt) st [])
    /\ (registryInvariant st -> namesOf st c = [n] ->
        JsMap.get (shortcutsRegistry (final (unregisterShortcut c n st))) c = None).
Proof.
  intros Action App st c n.
  destruct (JsMap.get (shortcutsRegistry st) c) as [m|] eqn:Hget.
  2:{ rewrite (unregisterShortcut_unknown c n st Hget). cbn [final].
      unfold lookupEntry, namesOf. rewrite Hget.
      repeat split; try reflexivity; try congruence; discriminate. }
  rewrite (unregisterShortcut_final c n st m Hget). cbn [final].
  set (m' := snd (JsMap.delete m n)).
  set (R := if Nat.eqb (JsMap.size m') 0
            then snd (JsMap.delete (JsMap.set (shortcutsRegistry st) c m') c)
            else JsMap.set (shortcutsRegistry st) c m').
  assert (Hfinal : shortcutsRegistry
                     (if JsMap.has m n
                      then final (debouncedUpdateRegistry (withRegistry R st))
                      else withRegistry R st) = R).
  { destruct (JsMap.has m n); reflexivity. }
  assert (Hm' : JsMap.get m' n = None) by apply get_delete_same.
  assert (HRc : JsMap.get R c = None \/ JsMap.get R c = Some m').
  { unfold R. destruct (Nat.eqb (JsMap.size m') 0).
    - left. apply get_delete_same.
    - right. apply get_set_same. }
  assert (HRo : forall c', c' <> c -> JsMap.get R c' = JsMap.get (shortcutsRegistry st) c').
  { intros c' Hne. unfold R. destruct (Nat.eqb (JsMap.size m') 0).
    - rewrite get_delete_other by congruence. apply get_set_other. congruence.
    - apply get_set_other. congruence. }
  split.
  { unfold lookupEntry. rewrite Hfinal. destruct HRc as [-> | ->]; [reflexivity | exact Hm']. }
  split.
  { intros c' n' Hne. unfold lookupEntry. rewrite Hfinal.
    destruct (String.eqb_spec c' c) as [-> | Hc].
    - destruct Hne as [Hne | Hne]; [congruence|]. rewrite Hget.
      assert (Hm'n : JsMap.get m' n' = JsMap.get m n')
        by (apply get_delete_other; congruence).
      destruct HRc as [HR | HR]; rewrite HR; [|exact Hm'n].
      rewrite <- Hm'n. unfold R in HR.
      destruct (Nat.eqb (JsMap.size m') 0) eqn:E.
      + apply Nat.eqb_eq, length_zero_iff_nil in E. now rewrite E.
      + rewrite get_set_same in HR. discriminate.
    - now rewrite HRo. }
  split.
  { unfold lookupEntry. rewrite Hget. intros Hsome. unfold JsMap.has.
    destruct (JsMap.get m n); [|congruence]. cbn.
    split; [reflexivity|]. apply in_or_app. right. now left. }
  split.
  { intros Hinv Hnone. unfold lookupEntry in Hnone. rewrite Hget in Hnone.
    destruct (registryInvariant_get st c m Hinv Hget) as (_ & Hne & _).
    unfold JsMap.has. rewrite Hnone.
    assert (Hsame : m' = m) by (apply delete_absent, Hnone).
    unfold R. rewrite Hsame.
    destruct (Nat.eqb (JsMap.size m) 0) eqn:E.
    { apply Nat.eqb_eq, length_zero_iff_nil in E. contradiction. }
    rewrite (set_get_same _ _ _ Hget), withRegistry_same. reflexivity. }
  intros Hinv Hnames. unfold namesOf in Hnames. rewrite Hget in Hnames.
  rewrite Hfinal. unfold R.
  assert (Hnil : m' = []).
  { unfold m'. cbn. destruct m as [|[n0 e0] [|x r]]; try discriminate.
    cbn in Hnames. injection Hnames as ->. cbn. now rewrite String.eqb_refl. }
  rewrite Hnil. cbn [JsMap.size List.length Nat.eqb]. apply get_delete_same.
Qed.

Lemma unregisterShortcut_removes_one_witness :
  unregisterShortcut "nav" "missing" nextThenDelCommitted
  = mkOutcome (Ok tt) nextThenDelCommitted []
  /\ JsMap.get (shortcutsRegistry (final (unregisterShortcut "nav" "next" nextThenDelCommitted)))
       "nav" = None.
Proof.
  assert (Hinv : registryInvariant nextThenDelCommitted).
  { split; repeat constructor; cbn; intuition discriminate. }
  pose proof (unregisterShortcut_removes_one DemoAction (list string)
                nextThenDelCommitted "nav" "missing") as (_ & _ & _ & Hnoop & _).
  pose proof (unregisterShortcut_removes_one DemoAction (list string)
                nextThenDelCommitted "nav" "next") as (_ & _ & _ & _ & Hdrop).
  split; [apply Hnoop; [exact Hinv | reflexivity] | apply Hdrop; [exact Hinv | reflexivity]].
Defined.

(** X8 — Registering a pair that was not registered and unregistering it
    again gives back the registry map exactly, order of categories and of
    names included (on a well-formed registry). *)
Theorem register_unregister_roundtrip :
  forall (Action App : Type) (st : State Action App)
         (c n k : string) (a : Action) (d : string) (e : option bool) (o : option JsNumber.t),
    registryInvariant st ->
    lookupEntry st c n = None ->
    shortcutsRegistry
      (final (unregisterShortcut c n (final (registerShortcut c n k a d e o st))))
    = shortcutsRegistry st.
Proof.
  intros Action App st c n k a d e o Hinv Hnone.
  pose proof (registerShortcut_registry c n k a d e o st) as Hreg.
  set (st1 := final (registerShortcut c n k a d e o st)) in *.
  set (entry := mkEntry n k d a c (Some (match e with Some b => b | None => true end)) o) in *.
  set (m0 := match JsMap.get (shortcutsRegistry st) c with Some m => m | None => [] end) in *.
  assert (Hget1 : JsMap.get (shortcutsRegistry st1) c = Some (JsMap.set m0 n entry)).
  { rewrite Hreg. apply get_set_same. }
  rewrite (unregisterShortcut_final c n st1 _ Hget1). cbn [final].
  assert (Hm0 : JsMap.get m0 n = None).
  { unfold m0. unfold lookupEntry in Hnone.
    destruct (JsMap.get (shortcutsRegistry st) c); [exact Hnone | reflexivity]. }
  rewrite (delete_set_absent m0 n entry Hm0).
  assert (Hhas : JsMap.has (JsMap.set m0 n entry) n = true).
  { unfold JsMap.has. now rewrite get_set_same. }
  rewrite Hhas. cbn [final debouncedUpdateRegistry modify shortcutsRegistry withTimers
                     withRegistry].
  rewrite Hreg, set_set. unfold m0.
  destruct (JsMap.get (shortcutsRegistry st) c) as [m|] eqn:Hget.
  - destruct (registryInvariant_get st c m Hinv Hget) as (_ & Hne & _).
    destruct (Nat.eqb (JsMap.size m) 0) eqn:E.
    { apply Nat.eqb_eq, length_zero_iff_nil in E. contradiction. }
    apply set_get_same, Hget.
  - cbn [JsMap.size List.length Nat.eqb]. apply delete_set_absent, Hget.
Qed.

Lemma register_unregister_roundtrip_witness :
  shortcutsRegistry
    (final (unregisterShortcut "nav" "prev"
       (final (registerShortcut "nav" "prev" "ArrowUp" fn2 "desc" None (Some (JsNumber.Finite 1))
                 nextThenDelCommitted))))
  = shortcutsRegistry nextThenDelCommitted.
Proof.
  apply (register_unregister_roundtrip DemoAction (list string) nextThenDelCommitted).
  - split; repeat constructor; cbn; intuition discriminate.
  - reflexivity.
Defined.

(* ================================================================== *)
(** ** The store after a rebuild *)

Section RebuildFacts.
Context {Action App : Type}.
Implicit Types (st : State Action App)
               (reg : JsMap.t (JsMap.t (ShortcutEntry Action))).

Lemma defaults_get (c : string) (l : list (ShortcutEntry Action)) :
  JsMap.get (JsObject.own (@defaultShortcuts Action)) c = Some l -> l = [].
Proof.
  cbn. repeat match goal with |- context [if ?b then _ else _] => destruct b end;
    congruence.
Qed.

Lemma defaults_uniqueKeys : uniqueKeys (JsObject.own (@defaultShortcuts Action)).
Proof.
  unfold uniqueKeys. cbn. repeat constructor; cbn; intuition discriminate.
Qed.

(** A name that is neither a default category nor inherited is looked up
    in vain in the start record; a default category is empty there. *)
Lemma defaults_lookup (c : string) :
  inheritedName c = false ->
  (let found := JsObject.get (@defaultShortcuts Action) c in
   if JsObject.truthy found then found else JsObject.ArrayOf [])
  = JsObject.ArrayOf [].
Proof.
  intros Hname. cbn zeta. unfold JsObject.get.
  destruct (JsMap.get (JsObject.own defaultShortcuts) c) as [l|] eqn:E.
  - apply defaults_get in E. now subst l.
  - unfold inheritedName in Hname. apply orb_false_iff in Hname as [H1 H2].
    rewrite H1. cbn [JsObject.proto defaultShortcuts].
    unfold JsObject.fromObjectPrototype. now rewrite H2.
Qed.

Lemma updateRegistry_final st :
  updateRegistry st
  = mkOutcome (Ok tt)
      (withStore (fold_left updateCategory (shortcutsRegistry st) defaultShortcuts)
         (storeVersion st + 1) st)
      [].
Proof. reflexivity. Qed.

Lemma sort_nil_iff {A : Type} (cmp : A -> A -> JsNumber.t) (l : list A) :
  JsArray.sort cmp l = [] <-> l = [].
Proof.
  split; [|now intros ->].
  intros H. pose proof (sort_perm cmp l) as Hp. rewrite H in Hp.
  now apply Permutation_nil in Hp.
Qed.

Lemma values_In_map (m : JsMap.t (ShortcutEntry Action)) (e : ShortcutEntry Action) :
  In e (JsMap.values m) <-> exists n, In (n, e) m.
Proof.
  unfold JsMap.values. rewrite in_map_iff. split.
  - intros ([n e'] & <- & H). now exists n.
  - intros (n & H). now exists (n, e).
Qed.

(** The own properties of the rebuilt record: one per registered category
    other than ['__proto__'], and the default categories. *)
Lemma snapshot_own_In reg (c : string) (l : list (ShortcutEntry Action)) :
  uniqueKeys reg ->
  In (c, l) (JsObject.own (fold_left updateCategory reg defaultShortcuts))
  <-> c <> "__proto__"
      /\ match JsMap.get reg c with
         | Some m => Some (JsArray.sort compareOrder (JsMap.values m))
         | None => JsMap.get (JsObject.own (@defaultShortcuts Action)) c
         end = Some l.
Proof.
  intros Hu. rewrite (updateLoop_own reg defaultShortcuts eq_refl).
  set (regs := snd (JsMap.delete reg "__proto__")).
  assert (Hregs : uniqueKeys regs) by apply uniqueKeys_delete, Hu.
  assert (HS : uniqueKeys (fold_left updateOwn regs (JsObject.own (@defaultShortcuts Action))))
    by apply updateOwnLoop_uniqueKeys, defaults_uniqueKeys.
  assert (Hget : forall c', c' <> "__proto__" ->
             JsMap.get (fold_left updateOwn regs (JsObject.own (@defaultShortcuts Action))) c'
             = match JsMap.get reg c' with
               | Some m => Some (JsArray.sort compareOrder (JsMap.values m))
               | None => JsMap.get (JsObject.own (@defaultShortcuts Action)) c'
               end).
  { intros c' Hne.
    assert (Hsame : JsMap.get regs c' = JsMap.get reg c')
      by (apply get_delete_other; congruence).
    destruct (JsMap.get reg c') as [m|] eqn:E.
    - now apply updateOwnLoop_get.
    - apply updateOwnLoop_other. now apply get_None_keys. }
  split.
  - intros Hin. apply (In_get _ _ _ HS) in Hin.
    destruct (String.eqb_spec c "__proto__") as [-> | Hne].
    + rewrite updateOwnLoop_other in Hin by (apply get_None_keys, get_delete_same).
      discriminate.
    + split; [exact Hne|]. now rewrite <- (Hget c Hne).
  - intros [Hne H]. apply get_In. now rewrite (Hget c Hne).
Qed.

(** After a rebuild an entry is in the flattened snapshot exactly when it is
    registered under its own category and name, in a category other than
    ['__proto__']. *)
Lemma snapshot_lists_registered st (e : ShortcutEntry Action) :
  registryInvariant st ->
  In e (flattenAndSort (storeShortcuts (final (updateRegistry st))))
  <-> lookupEntry st (category e) (name e) = Some e /\ category e <> "__proto__".
Proof.
  intros Hinv. pose proof Hinv as [Hu Hall].
  rewrite updateRegistry_final. cbn [final withStore storeShortcuts].
  rewrite flattenAndSort_eq, sort_In, in_concat. split.
  - intros (l & Hl & He). apply values_In in Hl as (c & Hc).
    apply (snapshot_own_In _ c l Hu) in Hc as [Hne Hc].
    destruct (JsMap.get (shortcutsRegistry st) c) as [m|] eqn:Hget.
    + injection Hc as <-. apply sort_In, values_In_map in He as (n & Hn).
      destruct (registryInvariant_get st c m Hinv Hget) as (Hm1 & _ & Hm3).
      rewrite Forall_forall in Hm3. destruct (Hm3 _ Hn) as (Hname & Hcat & _).
      cbn [fst snd] in Hname, Hcat. unfold lookupEntry. rewrite Hcat, Hname, Hget.
      split; [now apply In_get | exact Hne].
    + apply defaults_get in Hc. subst l. contradiction.
  - unfold lookupEntry. intros [Hl Hne].
    destruct (JsMap.get (shortcutsRegistry st) (category e)) as [m|] eqn:Hget;
      [|discriminate].
    exists (JsArray.sort compareOrder (JsMap.values m)). split.
    + apply values_In. exists (category e). apply (snapshot_own_In _ _ _ Hu).
      split; [exact Hne | now rewrite Hget].
    + apply sort_In, values_In_map. exists (name e). now apply get_In.
Qed.
End RebuildFacts.

(** X9 — [clearShortcuts(category)] removes every entry of the category
    and touches no other category; on a category that is not registered it
    changes nothing at all, otherwise it arms a timeout; and once the store
    has been rebuilt, [getShortcuts(category)] is the empty sequence,
    provided the name is not one that objects inherit and no category named
    ['__proto__'] is registered. *)
Theorem clearShortcuts_empties_category :
  forall (Action App : Type) (st : State Action App) (c : string),
    (forall n, lookupEntry (final (clearShortcuts c st)) c n = None)
    /\ (forall c' n', c' <> c ->
          lookupEntry (final (clearShortcuts c st)) c' n' = lookupEntry st c' n')
    /\ (JsMap.get (shortcutsRegistry st) c = None ->
        clearShortcuts c st = mkOutcome (Ok tt) st [])
    /\ (JsMap.get (shortcutsRegistry st) c <> None ->
        In (nextTimeout st) (pendingTimeouts (final (clearShortcuts c st))))
    /\ (inheritedName c = false ->
        JsMap.get (shortcutsRegistry st) "__proto__" = None ->
        res (getShortcuts c (final (updateRegistry (final (clearShortcuts c st)))))
        = Ok (JsObject.ArrayOf [])).
Proof.
  intros Action App st c. rewrite clearShortcuts_final. cbn [final].
  assert (Hfinal : shortcutsRegistry
                     (if JsMap.has (shortcutsRegistry st) c
                      then final (debouncedUpdateRegistry
                             (withRegistry (snd (JsMap.delete (shortcutsRegistry st) c)) st))
                      else withRegistry (snd (JsMap.delete (shortcutsRegistry st) c)) st)
                   = snd (JsMap.delete (shortcutsRegistry st) c)).
  { destruct (JsMap.has (shortcutsRegistry st) c); reflexivity. }
  split.
  { intros n. unfold lookupEntry. now rewrite Hfinal, get_delete_same. }
  split.
  { intros c' n' Hne. unfold lookupEntry.
    rewrite Hfinal, get_delete_other by congruence. reflexivity. }
  split.
  { intros Hnone. unfold JsMap.has. rewrite Hnone.
    now rewrite (delete_absent _ _ Hnone), withRegistry_same. }
  split.
  { intros Hsome. unfold JsMap.has.
    destruct (JsMap.get (shortcutsRegistry st) c); [|congruence].
    cbn. apply in_or_app. right. now left. }
  intros Hname Hproto.
  rewrite updateRegistry_final. cbn [final]. unfold getShortcuts, gets.
  cbn [res withStore storeShortcuts]. rewrite Hfinal.
  assert (Hne : c <> "__proto__").
  { intros ->. discriminate. }
  rewrite (snapshot_get_unregistered _ defaultShortcuts c defaultShortcuts_noOwnProto);
    [ | apply get_delete_same
      | rewrite get_delete_other by congruence; exact Hproto ].
  f_equal. apply (defaults_lookup c Hname).
Qed.

Lemma clearShortcuts_empties_category_witness :
  res (getShortcuts "nav"
         (final (updateRegistry (final (clearShortcuts "nav" nextThenDelCommitted)))))
  = Ok (JsObject.ArrayOf []).
Proof.
  pose proof (clearShortcuts_empties_category DemoAction (list string)
                nextThenDelCommitted "nav") as (_ & _ & _ & _ & H).
  apply H; reflexivity.
Defined.

(** X10 — After [updateRegistry] (category keys held once),
    [getShortcuts(category)] is, for every registered category, a permutation
    of the entries registered in it, namely their stable sort: when none of
    their orders is NaN, it ascends in effective order with ties in insertion
    order. For a name that is not registered, is not one that objects
    inherit, and with no category named ['__proto__'] registered, it is the
    empty sequence. The registry map is untouched, the store's version is one
    higher, and a second rebuild gives the same store. *)
Theorem updateRegistry_snapshot :
  forall (Action App : Type) (st : State Action App),
    uniqueKeys (shortcutsRegistry st) ->
    (forall c m, JsMap.get (shortcutsRegistry st) c = Some m ->
        res (getShortcuts c (final (updateRegistry st)))
        = Ok (JsObject.ArrayOf (JsArray.sort compareOrder (JsMap.values m)))
        /\ Permutation (JsArray.sort compareOrder (JsMap.values m)) (JsMap.values m)
        /\ (forallb orderIsNumber (JsMap.values m) = true ->
            StronglySorted (fun a b => JsNumber.leb (orderOrMax a) (orderOrMax b) = true)
              (JsArray.sort compareOrder (JsMap.values m))
            /\ forall k, withOrder k (JsArray.sort compareOrder (JsMap.values m))
                         = withOrder k (JsMap.values m)))
    /\ (forall c, JsMap.get (shortcutsRegistry st) c = None ->
          JsMap.get (shortcutsRegistry st) "__proto__" = None ->
          inheritedName c = false ->
          res (getShortcuts c (final (updateRegistry st))) = Ok (JsObject.ArrayOf []))
    /\ shortcutsRegistry (final (updateRegistry st)) = shortcutsRegistry st
    /\ storeVersion (final (updateRegistry st)) = (storeVersion st + 1)%Z
    /\ storeShortcuts (final (updateRegistry (final (updateRegistry st))))
       = storeShortcuts (final (updateRegistry st)).
Proof.
  intros Action App st Hu.
  split.
  { intros c m Hget. split; [|split].
    - rewrite updateRegistry_final. unfold getShortcuts, gets.
      cbn [final res withStore storeShortcuts].
      now rewrite (snapshot_get_registered _ defaultShortcuts c m defaultShortcuts_noOwnProto Hu Hget).
    - apply sort_perm.
    - intros Hnum. split.
      + apply (sort_sorted orderOrMax).
        rewrite forallb_forall in Hnum. apply Forall_forall. intros e He.
        specialize (Hnum e He). unfold orderIsNumber in Hnum.
        now apply negb_true_iff in Hnum.
      + intros k. apply (sort_stable orderOrMax). }
  split.
  { intros c Hget Hproto Hname. rewrite updateRegistry_final. unfold getShortcuts, gets.
    cbn [final res withStore storeShortcuts].
    rewrite (snapshot_get_unregistered _ defaultShortcuts c defaultShortcuts_noOwnProto Hget Hproto).
    f_equal. apply (defaults_lookup c Hname). }
  repeat split.
Qed.

Lemma updateRegistry_snapshot_witness :
  res (getShortcuts "nav" (final (updateRegistry nextThenDelCommitted)))
  = Ok (JsObject.ArrayOf [mkEntry "next" "ArrowDown" "desc" fn1 "nav" (Some true) None])
  /\ res (getShortcuts "nowhere" (final (updateRegistry nextThenDelCommitted)))
     = Ok (JsObject.ArrayOf []).
Proof.
  assert (Hu : uniqueKeys (shortcutsRegistry nextThenDelCommitted)).
  { repeat constructor; cbn; intuition discriminate. }
  pose proof (updateRegistry_snapshot DemoAction (list string) nextThenDelCommitted Hu)
    as (Hget & Hmiss & _).
  split.
  - destruct (Hget "nav" [("next", mkEntry "next" "ArrowDown" "desc" fn1 "nav" (Some true) None)]
                eq_refl) as (H & _).
    exact H.
  - apply Hmiss; reflexivity.
Defined.

(* ================================================================== *)
(** ** Reading the rebuilt store *)

Lemma categories_fold {V : Type} (l : list (string * list V)) (acc : list string) :
  fold_left
    (fun categories kv =>
       if Nat.ltb 0 (List.length (snd kv)) then categories ++ [fst kv] else categories)
    l acc
  = acc ++ map fst (filter (fun kv => Nat.ltb 0 (List.length (snd kv))) l).
Proof.
  revert acc. induction l as [|kv l IH]; intros acc; cbn [fold_left filter map].
  - now rewrite app_nil_r.
  - rewrite IH. destruct (Nat.ltb 0 (List.length (snd kv))); cbn [map]; [|reflexivity].
    now rewrite <- app_assoc.
Qed.

Lemma lookupEntry_filed {Action App : Type} (st : State Action App) (c n : string)
    (e : ShortcutEntry Action) :
  registryInvariant st -> lookupEntry st c n = Some e ->
  name e = n /\ category e = c /\ enabled e <> None.
Proof.
  intros Hinv Hl. unfold lookupEntry in Hl.
  destruct (JsMap.get (shortcutsRegistry st) c) as [m|] eqn:Hget; [|discriminate].
  destruct (registryInvariant_get st c m Hinv Hget) as (_ & _ & Hm).
  rewrite Forall_forall in Hm. exact (Hm _ (get_In _ _ _ Hl)).
Qed.

(** X11 — [getShortcutCategories] lists, in enumeration order, the
    categories of the store whose sequence is not empty; after a rebuild of
    the store from a well-formed registry these are exactly the categories
    that have a registered shortcut, except a category named ['__proto__'],
    which is never listed (an unused default category is not listed either). *)
Theorem getShortcutCategories_lists_registered :
  forall (Action App : Type) (st : State Action App),
    getShortcutCategories st
    = mkOutcome
        (Ok (map fst
               (filter (fun kv => Nat.ltb 0 (List.length (snd kv)))
                  (JsObject.entries (storeShortcuts st)))))
        st []
    /\ (registryInvariant st ->
        forall c,
          In c (map fst
                  (filter (fun kv => Nat.ltb 0 (List.length (snd kv)))
                     (JsObject.entries (storeShortcuts (final (updateRegistry st))))))
          <-> JsMap.has (shortcutsRegistry st) c = true /\ c <> "__proto__").
Proof.
  intros Action App st. split.
  { unfold getShortcutCategories, gets. now rewrite categories_fold. }
  intros Hinv c. pose proof Hinv as [Hu _].
  rewrite updateRegistry_final. cbn [final withStore storeShortcuts].
  rewrite in_map_iff. unfold JsMap.has. split.
  - intros ([c' l] & Hc & Hin). cbn [fst] in Hc. subst c'.
    apply filter_In in Hin as [Hin Hlen]. cbn [snd] in Hlen.
    apply entries_In, (snapshot_own_In _ c l Hu) in Hin as [Hne Hin].
    split; [|exact Hne].
    destruct (JsMap.get (shortcutsRegistry st) c); [reflexivity|].
    apply defaults_get in Hin. subst l. discriminate.
  - destruct (JsMap.get (shortcutsRegistry st) c) as [m|] eqn:Hm; [|intros [? _]; discriminate].
    intros [_ Hne]. exists (c, JsArray.sort compareOrder (JsMap.values m)).
    split; [reflexivity|]. apply filter_In. split.
    + apply entries_In, (snapshot_own_In _ _ _ Hu). split; [exact Hne | now rewrite Hm].
    + cbn [snd]. destruct (registryInvariant_get st c m Hinv Hm) as (_ & Hnil & _).
      destruct (JsArray.sort compareOrder (JsMap.values m)) eqn:E; [|reflexivity].
      apply sort_nil_iff in E. unfold JsMap.values in E. apply map_eq_nil in E.
      contradiction.
Qed.

Lemma getShortcutCategories_lists_registered_witness :
  In "edit"
    (map fst
       (filter (fun kv => Nat.ltb 0 (List.length (snd kv)))
          (JsObject.entries (storeShortcuts (final (updateRegistry nextThenDelCommitted)))))).
Proof.
  assert (Hinv : registryInvariant nextThenDelCommitted).
  { split; repeat constructor; cbn; intuition discriminate. }
  pose proof (getShortcutCategories_lists_registered DemoAction (list string)
                nextThenDelCommitted) as (_ & H).
  apply (H Hinv "edit"). split; [reflexivity | discriminate].
Defined.

(** X12 — After a rebuild of the store from a well-formed registry,
    [getAllShortcuts] returns exactly the registered entries of the
    categories other than ['__proto__']: an entry is in the sequence if and
    only if it is what the registry holds under the entry's own category and
    name and that category is not ['__proto__']. *)
Theorem getAllShortcuts_lists_registered :
  forall (Action App : Type) (st : State Action App) (l : list (ShortcutEntry Action)),
    registryInvariant st ->
    res (getAllShortcuts (final (updateRegistry st))) = Ok l ->
    forall e,
      In e l <-> lookupEntry st (category e) (name e) = Some e /\ category e <> "__proto__".
Proof.
  intros Action App st l Hinv Hres e.
  unfold getAllShortcuts, gets in Hres. cbn [res] in Hres. injection Hres as <-.
  now apply snapshot_lists_registered.
Qed.

Lemma getAllShortcuts_lists_registered_witness :
  In (mkEntry "del" "Delete" "desc" fn2 "edit" (Some true) None)
    (flattenAndSort (storeShortcuts (final (updateRegistry nextThenDelCommitted)))).
Proof.
  assert (Hinv : registryInvariant nextThenDelCommitted).
  { split; repeat constructor; cbn; intuition discriminate. }
  apply (getAllShortcuts_lists_registered DemoAction (list string) nextThenDelCommitted
           _ Hinv eq_refl).
  split; [reflexivity | discriminate].
Defined.

(* ================================================================== *)
(** ** Mounting, direct execution and dispatch over the rebuilt store *)

(** X13 — The mount effect of [useShortcutsRegistry] rebuilds the store at
    once when the registry holds something and the hook was not initialised,
    and does nothing otherwise. So an entry registered before the hook mounts
    is returned by [getShortcuts] as soon as the effect has run, while the
    timeout armed by the registration is still pending. *)
Theorem mountEffect_commits_registry :
  forall (Action App : Type) (st : State Action App),
    useShortcutsRegistry_mountEffect true st = mkOutcome (Ok true) st []
    /\ (shortcutsRegistry st = [] ->
        forall initialized,
          useShortcutsRegistry_mountEffect initialized st = mkOutcome (Ok initialized) st [])
    /\ (shortcutsRegistry st <> [] ->
        useShortcutsRegistry_mountEffect false st
        = mkOutcome (Ok true) (final (updateRegistry st)) [])
    /\ (uniqueKeys (shortcutsRegistry st) ->
        forall c n k (a : Action) d e o,
          res (useShortcutsRegistry_mountEffect false
                 (final (registerShortcut c n k a d e o st))) = Ok true
          /\ (exists l,
                res (getShortcuts c
                       (final (useShortcutsRegistry_mountEffect false
                                 (final (registerShortcut c n k a d e o st)))))
                = Ok (JsObject.ArrayOf l)
                /\ In (mkEntry n k d a c
                         (Some (match e with Some b => b | None => true end)) o) l)
          /\ pendingTimeouts
               (final (useShortcutsRegistry_mountEffect false
                         (final (registerShortcut c n k a d e o st))))
             = pendingTimeouts (final (registerShortcut c n k a d e o st))).
Proof.
  intros Action App st.
  assert (Hfull : forall st0 : State Action App,
             shortcutsRegistry st0 <> [] ->
             useShortcutsRegistry_mountEffect false st0
             = mkOutcome (Ok true) (final (updateRegistry st0)) []).
  { intros st0 Hne. unfold useShortcutsRegistry_mountEffect, bind, gets, ret.
    cbn [res final calls negb andb]. unfold JsMap.size.
    destruct (shortcutsRegistry st0); [contradiction | reflexivity]. }
  split; [reflexivity|].
  split.
  { intros Hnil initialized. unfold useShortcutsRegistry_mountEffect, bind, gets, ret.
    cbn [res final calls]. rewrite Hnil. cbn. now rewrite andb_false_r. }
  split; [apply Hfull|].
  intros Hu c n k a d e o.
  pose proof (registerShortcut_registry c n k a d e o st) as Hreg.
  set (st1 := final (registerShortcut c n k a d e o st)) in *.
  assert (Hne : shortcutsRegistry st1 <> []) by (rewrite Hreg; apply set_not_nil).
  rewrite (Hfull st1 Hne). cbn [res final].
  split; [reflexivity|]. split; [|reflexivity].
  rewrite updateRegistry_final. unfold getShortcuts, gets.
  cbn [final res withStore storeShortcuts].
  assert (Hu1 : uniqueKeys (shortcutsRegistry st1)) by (rewrite Hreg; apply uniqueKeys_set, Hu).
  assert (Hg : JsMap.get (shortcutsRegistry st1) c
               = Some (JsMap.set
                         (match JsMap.get (shortcutsRegistry st) c with
                          | Some m => m
                          | None => []
                          end) n
                         (mkEntry n k d a c
                            (Some (match e with Some b => b | None => true end)) o)))
    by (rewrite Hreg; apply get_set_same).
  rewrite (snapshot_get_registered _ defaultShortcuts c _ defaultShortcuts_noOwnProto Hu1 Hg).
  eexists. split; [reflexivity|].
  apply sort_In, values_set_In.
Qed.

Lemma mountEffect_commits_registry_witness :
  exists l,
    res (getShortcuts "nav"
           (final (useShortcutsRegistry_mountEffect false
                     (final (registerShortcut "nav" "next" "ArrowDown" fn1 "desc"
                               None None demoStart)))))
    = Ok (JsObject.ArrayOf l)
    /\ In (mkEntry "next" "ArrowDown" "desc" fn1 "nav" (Some true) None) l.
Proof.
  pose proof (mountEffect_commits_registry DemoAction (list string) demoStart)
    as (_ & _ & _ & H).
  assert (Hu : uniqueKeys (shortcutsRegistry demoStart)) by constructor.
  destruct (H Hu "nav" "next" "ArrowDown" fn1 "desc" None None) as (_ & Hin & _).
  exact Hin.
Defined.

(** X14 — [executeShortcut] reads the registry map, not the store, so it
    sees a registration at once: right after
    [registerShortcut(category, name, ..., action, ..., enabled)] it calls
    [action], and nothing else, unless [enabled] was passed as [false], in
    which case it calls nothing and returns [false]. *)
Theorem executeShortcut_after_register :
  forall (Action App : Type)
         (run : Action -> State Action App -> result unit * State Action App)
         (st : State Action App)
         (c n k : string) (a : Action) (d : string) (e : option bool) (o : option JsNumber.t),
    executeShortcut run c n (final (registerShortcut c n k a d e o st))
    = if match e with Some b => b | None => true end
      then mkOutcome
             (Ok (returns (fst (run a (final (registerShortcut c n k a d e o st))))))
             (stateAfterCall run a
                ("Error executing shortcut " ++ c ++ ":" ++ n ++ ":")%string
                (final (registerShortcut c n k a d e o st)))
             [a]
      else mkOutcome (Ok false) (final (registerShortcut c n k a d e o st)) [].
Proof.
  intros Action App run st c n k a d e o.
  pose proof (registerShortcut_registry c n k a d e o st) as Hreg.
  assert (Hl : lookupEntry (final (registerShortcut c n k a d e o st)) c n
               = Some (mkEntry n k d a c
                         (Some (match e with Some b => b | None => true end)) o)).
  { rewrite (lookupEntry_set st c _ _ Hreg), String.eqb_refl. apply get_set_same. }
  destruct (match e with Some b => b | None => true end) eqn:E.
  - now rewrite (executeShortcut_enabled run c n _ _ Hl eq_refl).
  - now rewrite (executeShortcut_disabled run c n _ _ Hl eq_refl).
Qed.

Lemma find_split {A : Type} (f : A -> bool) (l : list A) (x : A) :
  find f l = Some x ->
  exists before after,
    l = before ++ x :: after /\ f x = true /\ forall y, In y before -> f y = false.
Proof.
  induction l as [|y l IH]; cbn; [discriminate|].
  destruct (f y) eqn:E.
  - intros [= ->]. exists [], l. repeat split; [exact E | contradiction].
  - intros H. destruct (IH H) as (before & after & -> & Hx & Hb).
    exists (y :: before), after. repeat split; [exact Hx|].
    intros z [<- | Hz]; [exact E | now apply Hb].
Qed.

(** X15 — Dispatch over the store rebuilt from a well-formed registry, for
    a key press outside text-entry elements: every action the handler calls
    belongs to a registered, enabled entry whose combination matches; when
    some registered enabled entry of a category other than ['__proto__']
    matches, the handler calls exactly one action and suppresses the event;
    when no such entry matches, it leaves the event and the state as they
    are. *)
Theorem handleKeyDown_dispatches_registered :
  forall (Action App : Type)
         (run : Action -> State Action App -> result unit * State Action App)
         (st st' : State Action App) (event : KeyboardEvent.t),
    registryInvariant st ->
    isTextEntryTarget (KeyboardEvent.target event) = false ->
    (forall a,
        In a (calls (handleKeyDown run (storeShortcuts (final (updateRegistry st))) event st')) ->
        exists c n e,
          lookupEntry st c n = Some e /\ action e = a /\ enabled e = Some true
          /\ matchesKeyCombo event (keyCombo e) = true)
    /\ ((exists c n e,
           c <> "__proto__" /\ lookupEntry st c n = Some e /\ enabled e = Some true
           /\ matchesKeyCombo event (keyCombo e) = true) ->
        List.length
          (calls (handleKeyDown run (storeShortcuts (final (updateRegistry st))) event st')) = 1%nat
        /\ res (handleKeyDown run (storeShortcuts (final (updateRegistry st))) event st')
           = Ok (stopPropagation (preventDefault event)))
    /\ ((forall c n e,
           c <> "__proto__" -> lookupEntry st c n = Some e ->
           truthy (enabled e) && matchesKeyCombo event (keyCombo e) = false) ->
        handleKeyDown run (storeShortcuts (final (updateRegistry st))) event st'
        = mkOutcome (Ok event) st' []).
Proof.
  intros Action App run st st' event Hinv Hguard.
  unfold handleKeyDown. rewrite Hguard, scanShortcuts_spec.
  pose proof (snapshot_lists_registered st) as Hsnap.
  destruct (firstEnabledMatch event
              (flattenAndSort (storeShortcuts (final (updateRegistry st))))) as [s|] eqn:Hfind;
    unfold firstEnabledMatch in Hfind.
  - apply find_some in Hfind as [Hin Hok]. apply andb_true_iff in Hok as [He Hm].
    apply (Hsnap s Hinv) in Hin as [Hin Hne].
    cbn [calls res List.length]. split; [|split].
    + intros a [<- | []]. exists (category s), (name s), s.
      repeat split; try assumption.
      destruct (enabled s) as [[]|]; [reflexivity | discriminate | discriminate].
    + intros _. split; reflexivity.
    + intros Hnone. specialize (Hnone _ _ _ Hne Hin).
      rewrite He, Hm in Hnone. discriminate.
  - cbn [calls res List.length]. split; [|split].
    + intros a [].
    + intros (c & n & e & Hne & Hl & He & Hm). exfalso.
      destruct (lookupEntry_filed st c n e Hinv Hl) as (Hn & Hc & _).
      assert (Hin : In e (flattenAndSort (storeShortcuts (final (updateRegistry st))))).
      { apply (Hsnap e Hinv). rewrite Hc, Hn. split; [exact Hl | exact Hne]. }
      pose proof (find_none _ _ Hfind e Hin) as Hf. cbn beta in Hf.
      rewrite He, Hm in Hf. discriminate.
    + reflexivity.
Qed.

Lemma handleKeyDown_dispatches_registered_witness :
  List.length
    (calls (handleKeyDown runDemo (storeShortcuts (final (updateRegistry conflictCommitted)))
              ctrlA conflictCommitted)) = 1%nat.
Proof.
  assert (Hinv : registryInvariant conflictCommitted).
  { split; repeat constructor; cbn; intuition discriminate. }
  pose proof (handleKeyDown_dispatches_registered DemoAction (list string) runDemo
                conflictCommitted conflictCommitted ctrlA Hinv eq_refl) as (_ & H & _).
  apply H.
  exists "category2", "action2",
    (mkEntry "action2" "Ctrl+A" "Second action" fn2 "category2" (Some true) None).
  repeat split. discriminate.
Defined.

(** X16 — When no entry of the snapshot has NaN as its order, the entry
    the handler fires has the least effective order among the enabled entries
    of the snapshot that match the event: a matching enabled entry with a
    smaller [order] always wins over one with a larger or an undefined
    [order]. *)
Theorem handleKeyDown_least_order_wins :
  forall (Action App : Type)
         (run : Action -> State Action App -> result unit * State Action App)
         (cachedShortcuts : JsObject.t (ShortcutEntry Action))
         (event : KeyboardEvent.t) (st : State Action App) (s : ShortcutEntry Action),
    forallb orderIsNumber (concat (JsObject.values cachedShortcuts)) = true ->
    isTextEntryTarget (KeyboardEvent.target event) = false ->
    firstEnabledMatch event (flattenAndSort cachedShortcuts) = Some s ->
    calls (handleKeyDown run cachedShortcuts event st) = [action s]
    /\ forall x,
         In x (flattenAndSort cachedShortcuts) ->
         truthy (enabled x) = true -> matchesKeyCombo event (keyCombo x) = true ->
         JsNumber.leb (orderOrMax s) (orderOrMax x) = true.
Proof.
  intros Action App run cachedShortcuts event st s Hnum Hguard Hfind.
  unfold handleKeyDown. rewrite Hguard, scanShortcuts_spec, Hfind.
  split; [reflexivity|].
  intros x Hin He Hm. unfold firstEnabledMatch in Hfind.
  apply find_split in Hfind as (before & after & Hsplit & _ & Hb).
  assert (Hnan : forall y, In y (flattenAndSort cachedShortcuts) ->
                   JsNumber.isNaN (orderOrMax y) = false).
  { intros y Hy. rewrite flattenAndSort_eq in Hy. apply sort_In in Hy.
    rewrite forallb_forall in Hnum. specialize (Hnum y Hy).
    unfold orderIsNumber in Hnum. now apply negb_true_iff in Hnum. }
  assert (Hsorted : StronglySorted
                      (fun a b => JsNumber.leb (orderOrMax a) (orderOrMax b) = true)
                      (flattenAndSort cachedShortcuts)).
  { rewrite flattenAndSort_eq. apply (sort_sorted orderOrMax).
    apply Forall_forall. intros y Hy. apply Hnan.
    rewrite flattenAndSort_eq. now apply sort_In. }
  pose proof (Hnan x Hin) as Hx.
  rewrite Hsplit in Hin, Hsorted.
  apply in_app_iff in Hin as [Hin | [<- | Hin]].
  - specialize (Hb x Hin). cbn beta in Hb. rewrite He, Hm in Hb. discriminate.
  - destruct (orderOrMax s); cbn in *; try reflexivity; try discriminate.
    apply Z.leb_refl.
  - apply StronglySorted_after in Hsorted. rewrite Forall_forall in Hsorted.
    exact (Hsorted x Hin).
Qed.

Lemma handleKeyDown_least_order_wins_witness :
  calls (handleKeyDown runDemo (storeShortcuts conflictCommitted) ctrlA conflictCommitted)
  = [failing].
Proof.
  apply (handleKeyDown_least_order_wins DemoAction (list string) runDemo
           (storeShortcuts conflictCommitted) ctrlA conflictCommitted
           (mkEntry "action1" "Ctrl+A" "First action" failing "category1" (Some true) None)
           eq_refl eq_refl eq_refl).
Defined.
